(** * jest-mock-this-issue: a mock of presence channels

    A shallow embedding of the JavaScript sources: the channel registry
    ([MockInstance]), the proxy that overlays a client's identity on a
    shared channel ([proxyMockChannel]) and the client ([MockClient]).

    The repository holds two drafts of the program.
    - [DraftMyID]: [create-client.js], [mock-client.js], the [MockInstance]
      with a default export, and the [proxyMockChannel] that traps [myID];
      exercised by [create-client.test.js].
    - [DraftMembers]: the [MockClient] with [setID], [mock-instance.js], and
      the [proxyMockChannel] that traps [members]; exercised by
      [client.test.js].

    JavaScript objects live in a heap and are named by their location, so
    that [===] on objects is equality of locations. *)

From Stdlib Require Import String List Lia.
From stdpp Require Import base option list gmap strings pretty.

Open Scope string_scope.

(** ** Values and objects *)

Abbreviation loc := nat (only parsing).

(** An object is either allocated by the program or supplied by the host
    (a built-in such as [Object.prototype] or one of its methods). *)
Inductive objref :=
  | Heap (l : loc)
  | Builtin (b : string).

(** The values that reach this code: [undefined], [null], strings
    (identities and names) and object references. *)
Inductive value :=
  | VUndefined
  | VNull
  | VString (s : string)
  | VObject (o : objref).

#[global] Instance objref_eq_dec : EqDecision objref.
Proof. solve_decision. Defined.

#[global] Instance value_eq_dec : EqDecision value.
Proof. solve_decision. Defined.

(** The prototype an allocated object was created with: an object literal
    has [Object.prototype], [new MockChannel(name)] has
    [MockChannel.prototype]. *)
Inductive class :=
  | PlainObject
  | MockChannelInstance.

#[global] Instance class_eq_dec : EqDecision class.
Proof. solve_decision. Defined.

(** Own properties (all of them plain enumerable data properties). *)
Record object := mkObject {
  cls : class;
  props : gmap string value
}.

(** The realm.
    - [heap]: the allocated objects, an object's location is its index;
    - [channels]: the own properties of [MockInstance.channels], which the
      code only ever assigns [new MockChannel(name)];
    - [ids]: the own property [id] of each client, keyed by the client;
    - [id_writes]: ghost history of the assignments to [this.id], oldest
      first;
    - [host_get]: the properties of string primitives and of built-in
      objects, as the host defines them. *)
Record state := mkState {
  heap : list object;
  channels : gmap string loc;
  ids : gmap nat value;
  id_writes : list (nat * value);
  host_get : value -> string -> value
}.

(** ToBoolean. *)
Definition truthy (v : value) : bool :=
  match v with
  | VUndefined => false
  | VNull => false
  | VString s => negb (String.eqb s "")
  | VObject _ => true
  end.

Definition is_object (v : value) : bool :=
  match v with
  | VObject _ => true
  | _ => false
  end.

(** The names [Object.prototype] defines, [__proto__] apart. *)
Definition Object_prototype_methods : list string :=
  [ "constructor"; "__defineGetter__"; "__defineSetter__"; "hasOwnProperty";
    "__lookupGetter__"; "__lookupSetter__"; "isPrototypeOf";
    "propertyIsEnumerable"; "toString"; "valueOf"; "toLocaleString" ].

Definition prototype_of (c : class) : string :=
  match c with
  | PlainObject => "Object.prototype"
  | MockChannelInstance => "MockChannel.prototype"
  end.

(** What a property read finds on the prototype chain of an object of class
    [c] when the object has no own property [key]. [MockChannel.prototype]
    defines [constructor] only. *)
Definition inherited (c : class) (key : string) : value :=
  if decide (key = "__proto__") then VObject (Builtin (prototype_of c))
  else if decide (c = MockChannelInstance ∧ key = "constructor")
       then VObject (Builtin "MockChannel")
  else if decide (key ∈ Object_prototype_methods)
       then VObject (Builtin ("Object.prototype." ++ key))
  else VUndefined.

(** [o[key]] for an allocated object. *)
Definition object_get (o : object) (key : string) : value :=
  match props o !! key with
  | Some v => v
  | None => inherited (cls o) key
  end.

(** [target[key]] for an object reference. A location that holds no object
    does not occur in a realm built by the program; it reads as an empty
    plain object. *)
Definition Get (target : objref) (key : string) (st : state) : value :=
  match target with
  | Heap l =>
      match heap st !! l with
      | Some o => object_get o key
      | None => inherited PlainObject key
      end
  | Builtin b => host_get st (VObject (Builtin b)) key
  end.

(** [v[key]] for any value; [None] is the TypeError of reading a property
    of [undefined] or of [null]. *)
Definition GetV (v : value) (key : string) (st : state) : option value :=
  match v with
  | VUndefined => None
  | VNull => None
  | VString s => Some (host_get st (VString s) key)
  | VObject o => Some (Get o key st)
  end.

(** [new] or an object literal: the object is stored at the next free
    location. *)
Definition alloc (o : object) (st : state) : loc * state :=
  (length (heap st),
   mkState (heap st ++ [o]) (channels st) (ids st) (id_writes st) (host_get st)).

(** [target[key] = v] on an ordinary object. Assigning [__proto__] runs the
    accessor of [Object.prototype] and assigning to a built-in changes the
    host; the model tracks neither and answers [None] there. *)
Definition Set_ (target : objref) (key : string) (v : value) (st : state)
  : option state :=
  match target with
  | Heap l =>
      if decide (key = "__proto__") then None
      else
        match heap st !! l with
        | Some o =>
            Some (mkState (<[l := mkObject (cls o) (<[key := v]> (props o))]> (heap st))
                          (channels st) (ids st) (id_writes st) (host_get st))
        | None => None
        end
  | Builtin _ => None
  end.

(** The own enumerable properties of a string primitive: its characters
    under their decimal indices. *)
Definition string_props (s : string) : gmap string value :=
  list_to_map
    (imap (fun (i : nat) (c : Ascii.ascii) => (pretty i, VString (String c EmptyString)))
          (String.list_ascii_of_string s)).

(** [{...v}]: the own enumerable properties a spread copies. [undefined]
    and [null] spread to nothing, and so does a built-in, whose properties
    are not enumerable. *)
Definition spread (v : value) (st : state) : gmap string value :=
  match v with
  | VUndefined => ∅
  | VNull => ∅
  | VString s => string_props s
  | VObject (Heap l) =>
      match heap st !! l with
      | Some o => props o
      | None => ∅
      end
  | VObject (Builtin _) => ∅
  end.

(** [client.id]: the own property, [undefined] while it has not been
    assigned (no prototype of a client defines [id]). *)
Definition client_id (client : nat) (st : state) : value :=
  default VUndefined (ids st !! client).

(** [this.id = v]. *)
Definition assign_id (client : nat) (v : value) (st : state) : state :=
  mkState (heap st) (channels st) (<[client := v]> (ids st))
          (id_writes st ++ [(client, v)]) (host_get st).

(** Modelled from the spec: the constructor of [MockChannel]
    ([mock-channel.js] is not among the sources). A new Channel stores its
    name and an empty membership mapping, itself a new object. *)
Definition new_MockChannel (name : string) (st : state) : loc * state :=
  let (m, st1) := alloc (mkObject PlainObject ∅) st in
  alloc (mkObject MockChannelInstance
           (<["members" := VObject (Heap m)]> (<["name" := VString name]> ∅))) st1.

(** ** Proxies *)

(** [new Proxy(target, handler)] where the handler defines [get] only. The
    trap is a closure; it may allocate, so it threads the realm. A proxy is
    a value of its own: the heap holds the ordinary objects only, and two
    proxies of one target and one handler are not told apart. *)
Record Proxy := mkProxy {
  target : objref;
  handler_get : objref -> string -> state -> value * state
}.

(** [proxy[key]]: the [get] trap is called with the target. *)
Definition Proxy_get (p : Proxy) (key : string) (st : state) : value * state :=
  handler_get p (target p) key st.

(** [proxy[key] = v]: the handler has no [set] trap, the assignment is the
    target's. *)
Definition Proxy_set (p : Proxy) (key : string) (v : value) (st : state)
  : option state :=
  Set_ (target p) key v st.

(** [new Proxy(channel, handler)] throws a TypeError ([None]) unless
    [channel] is an object. *)
Definition new_Proxy (channel : value)
    (get : objref -> string -> state -> value * state) : option Proxy :=
  match channel with
  | VObject o => Some (mkProxy o get)
  | _ => None
  end.

(** [this.channels[name]]: an own property, or what the object literal
    inherits. *)
Definition channels_get (name : string) (st : state) : value :=
  match channels st !! name with
  | Some l => VObject (Heap l)
  | None => inherited PlainObject name
  end.

(** The realm before any channel or client exists. *)
Definition initial (host : value -> string -> value) : state :=
  mkState [] ∅ ∅ [] host.

(** A host whose strings and built-ins answer [undefined] to every read. *)
Definition bare_host : value -> string -> value := fun _ _ => VUndefined.

(** ** The draft that traps [members] *)

Module DraftMembers.

(** [mock-instance.js], [MockInstance.channel]: if the channel does not
    already exist, create one; return the channel. *)
Definition channel (name : string) (st : state) : value * state :=
  let st1 :=
    if negb (truthy (channels_get name st)) then
      let (c, st') := new_MockChannel name st in
      mkState (heap st') (<[name := c]> (channels st')) (ids st')
              (id_writes st') (host_get st')
    else st in
  (channels_get name st1, st1).

(** The [get] trap of [proxyMockChannel]: [members] is answered by a new
    object, the spread of [target.members] with [myID] set to [client.id];
    every other key is the target's. *)
Definition get (client : nat) (target : objref) (key : string) (st : state)
  : value * state :=
  if decide (key = "members") then
    let (m, st') :=
      alloc (mkObject PlainObject
               (<["myID" := client_id client st]> (spread (Get target "members" st) st)))
            st in
    (VObject (Heap m), st')
  else (Get target key st, st).

Definition proxyMockChannel (channel : value) (client : nat) : option Proxy :=
  new_Proxy channel (get client).

(** What [config.authorizer().authorize(callback)] does: the caller's
    authorization step, which may call [callback] now, later or never, and
    may throw ([None]). *)
Record Config := mkConfig {
  authorize : (value -> state -> state) -> state -> option state
}.

(** [this] names the client object; distinct clients have distinct names. *)
Record MockClient := mkMockClient {
  this : nat;
  config : Config
}.

Definition setID (c : MockClient) (id : value) (st : state) : state :=
  assign_id (this c) id st.

Definition subscribe (c : MockClient) (name : string) (st : state)
  : option (Proxy * state) :=
  st1 ← authorize (config c) (setID c) st;
  let (ch, st2) := channel name st1 in
  p ← proxyMockChannel ch (this c);
  Some (p, st2).

(** The authorizer of [client.test.js]: [callback => callback(id)]. *)
Definition authorizes (id : value) : Config :=
  mkConfig (fun callback st => Some (callback id st)).

(** An authorizer that keeps the callback for later: nothing happens before
    [subscribe] returns; the later call is a [setID] of its own. *)
Definition defers : Config :=
  mkConfig (fun _ st => Some st).

End DraftMembers.

(** ** The draft that traps [myID] *)

Module DraftMyID.

(** The [get] trap of [proxyMockChannel]. *)
Definition get (client : nat) (target : objref) (key : string) (st : state)
  : value * state :=
  if decide (key = "myID") then (client_id client st, st)
  else (Get target key st, st).

Definition proxyMockChannel (channel : value) (client : nat) : option Proxy :=
  new_Proxy channel (get client).

(** [MockInstance.channel] of this draft wraps the channel itself. *)
Definition channel (name : string) (client : nat) (st : state)
  : option (Proxy * state) :=
  let st1 :=
    if negb (truthy (channels_get name st)) then
      let (c, st') := new_MockChannel name st in
      mkState (heap st') (<[name := c]> (channels st')) (ids st')
              (id_writes st') (host_get st')
    else st in
  p ← proxyMockChannel (channels_get name st1) client;
  Some (p, st1).

(** A JavaScript function of one argument: it may throw ([None]), else it
    returns a value. *)
Definition callback := value -> state -> option (value * state).

(** [config.authorizer]: the caller's function, given the callback. *)
Record Config := mkConfig {
  authorizer : callback -> state -> option (value * state)
}.

Record MockClient := mkMockClient {
  this : nat;
  config : Config
}.

(** [mock-client.js], [subscribe]. The callback is an arrow function with a
    block body: it returns [undefined]. *)
Definition subscribe (c : MockClient) (name : string) (st : state)
  : option (Proxy * state) :=
  let callback : callback := fun result st =>
    r ← GetV result "id" st;
    Some (VUndefined, assign_id (this c) r st) in
  '(v, st1) ← authorizer (config c) callback st;
  let st2 := assign_id (this c) v st1 in
  channel name (this c) st2.

(** [create-client.js]: the authorizer is [callback => callback({ id })];
    under [create-client.test.js] the client class is [MockClient]. *)
Definition createClient (id : value) (this : nat) : MockClient :=
  mkMockClient this
    (mkConfig (fun callback st =>
       let (r, st1) := alloc (mkObject PlainObject (<["id" := id]> ∅)) st in
       callback (VObject (Heap r)) st1)).

End DraftMyID.

#[global] Arguments new_MockChannel : simpl never.
#[global] Arguments DraftMembers.channel : simpl never.
#[global] Arguments DraftMyID.channel : simpl never.

(** ** Well-formed realms *)

(** A value is closed below [n] when it does not refer to a location at or
    above [n]. *)
Definition closed (n : nat) (v : value) : Prop :=
  match v with
  | VObject (Heap l) => l < n
  | _ => True
  end.

(** An object reference names an object that exists. *)
Definition allocated (st : state) (o : objref) : Prop :=
  match o with
  | Heap l => l < length (heap st)
  | Builtin _ => True
  end.

(** JavaScript has no dangling references: the registry and the properties
    of allocated objects refer to allocated objects only, and the host's
    built-ins hold no reference into the program's heap. *)
Record wf (st : state) : Prop := mkWf {
  wf_channels : ∀ (name : string) (l : loc),
    channels st !! name = Some l → l < length (heap st);
  wf_heap : ∀ (l : loc) (o : object) (k : string) (v : value),
    heap st !! l = Some o → props o !! k = Some v →
    closed (length (heap st)) v;
  wf_host : ∀ (b : value) (k : string), closed 0 (host_get st b k)
}.

(** [st'] keeps every object of [st] as it is (it may hold more). *)
Definition extends (st st' : state) : Prop :=
  (∀ (l : loc) (o : object), heap st !! l = Some o → heap st' !! l = Some o)
  ∧ host_get st' = host_get st.

(** The own property [key] of the object at [l], if there is one. *)
Definition own_prop (l : loc) (key : string) (st : state) : option value :=
  o ← heap st !! l; props o !! key.

(** The Channel [new MockChannel(name)] leaves in the heap, with its
    membership object allocated just before it. *)
Definition fresh_channel (name : string) (st : state) : list object :=
  [ mkObject PlainObject ∅;
    mkObject MockChannelInstance
      (<["members" := VObject (Heap (length (heap st)))]>
         (<["name" := VString name]> ∅)) ].

(** The object a read of [members] allocates. *)
Definition merged (client : nat) (target : objref) (st : state) : object :=
  mkObject PlainObject
    (<["myID" := client_id client st]> (spread (Get target "members" st) st)).

(** The key a draft's [get] trap answers itself. *)
Inductive overlay_of (p : Proxy) : string -> Prop :=
  | overlay_myID channel client :
      DraftMyID.proxyMockChannel channel client = Some p →
      overlay_of p "myID"
  | overlay_members channel client :
      DraftMembers.proxyMockChannel channel client = Some p →
      overlay_of p "members".

(** ** A realm to try things on *)

(** Two clients hold the identities [alice] and [bob]; the channel [room]
    exists, at location 1, its membership object at location 0. *)
Definition room_realm : state :=
  (DraftMembers.channel "room"
     (assign_id 1 (VString "bob")
        (assign_id 0 (VString "alice") (initial bare_host)))).2.

(** ** What the registry keeps *)

(** A name under which an object literal inherits nothing: any name but
    [__proto__] and the methods of [Object.prototype]. *)
Definition plain_name (name : string) : Prop :=
  inherited PlainObject name = VUndefined.

(** Every stored entry is an allocated [MockChannel], and no two names
    share one. *)
Definition registry_ok (st : state) : Prop :=
  (∀ (n : string) (l : loc), channels st !! n = Some l →
     ∃ o, heap st !! l = Some o ∧ cls o = MockChannelInstance)
  ∧ (∀ (n1 n2 : string) (l : loc),
       channels st !! n1 = Some l → channels st !! n2 = Some l → n1 = n2).

(** A run of lookups, one name after the other, keeping the realm. *)
Definition lookups (names : list string) (st : state) : state :=
  foldl (fun st name => (DraftMembers.channel name st).2) st names.

(** The callback [subscribe] of [mock-client.js] hands to the authorizer,
    on its own: [result => { this.id = result.id; }]. *)
Definition subscribe_callback (c : DraftMyID.MockClient) : DraftMyID.callback :=
  fun result st =>
    r ← GetV result "id" st;
    Some (VUndefined, assign_id (DraftMyID.this c) r st).

(** [room_realm] with a second channel, [lobby], at location 3. *)
Definition two_rooms : state := (DraftMembers.channel "lobby" room_realm).2.

(** * Properties *)

(** ** The registry *)

Section Registry.

Implicit Types (name : string) (st : state).

(** Every name under which [MockInstance.channels] reads something truthy
    before any channel is stored: what an object literal inherits. *)
Lemma inherited_truthy c key :
  truthy (inherited c key) = is_object (inherited c key).
Proof.
  unfold inherited. repeat case_decide; reflexivity.
Qed.

Lemma channels_get_truthy name st :
  truthy (channels_get name st) = is_object (channels_get name st).
Proof.
  unfold channels_get. destruct (channels st !! name); [reflexivity|].
  apply inherited_truthy.
Qed.

Lemma channels_get_insert name c st h i w g :
  channels_get name (mkState h (<[name := c]> (channels st)) i w g)
  = VObject (Heap c).
Proof.
  unfold channels_get; simpl. by rewrite lookup_insert_eq.
Qed.

(** The value [channel] returns is an object, and a second lookup finds it
    without touching the realm. *)
Lemma channel_returns name st :
  ∀ c st1, DraftMembers.channel name st = (c, st1) →
    is_object c = true ∧ channels_get name st1 = c.
Proof.
  intros c st1. unfold DraftMembers.channel.
  destruct (truthy (channels_get name st)) eqn:Ht; simpl.
  - intros [= <- <-]. split; [|reflexivity].
    by rewrite <- channels_get_truthy.
  - destruct (new_MockChannel name st) as [l st'].
    rewrite channels_get_insert. intros [= <- <-].
    split; [reflexivity | apply channels_get_insert].
Qed.

Lemma channel_again name st c :
  is_object c = true → channels_get name st = c →
  DraftMembers.channel name st = (c, st).
Proof.
  intros Ho Hc. unfold DraftMembers.channel.
  rewrite channels_get_truthy, Hc, Ho. simpl. by rewrite Hc.
Qed.

End Registry.

(** Both drafts of [MockInstance.channel] look the channel up the same way;
    the draft that traps [myID] wraps what it found. *)
Lemma DraftMyID_channel_unfold (name : string) (client : nat) (st : state) :
  DraftMyID.channel name client st =
  let (c, st1) := DraftMembers.channel name st in
  p ← DraftMyID.proxyMockChannel c client; Some (p, st1).
Proof. reflexivity. Qed.

Lemma new_Proxy_object (c : value) g :
  is_object c = true → ∃ o, c = VObject o ∧ new_Proxy c g = Some (mkProxy o g).
Proof. destruct c; try discriminate. eauto. Qed.

(** C1. Registry idempotence: two lookups of one name return the identical
    object. In [mock-instance.js] the second call returns the very value the
    first returned and leaves the realm as it is; in the draft whose
    [channel] wraps its result, the proxies of two calls have the identical
    target. *)
Theorem registry_idempotence (name : string) (st : state) :
  (∃ c st1, DraftMembers.channel name st = (c, st1)
            ∧ DraftMembers.channel name st1 = (c, st1))
  ∧ (∀ a b : nat, ∃ pa pb st1,
        DraftMyID.channel name a st = Some (pa, st1)
        ∧ DraftMyID.channel name b st1 = Some (pb, st1)
        ∧ target pa = target pb).
Proof.
  destruct (DraftMembers.channel name st) as [c st1] eqn:E.
  destruct (channel_returns _ _ _ _ E) as [Ho Hc].
  pose proof (channel_again _ _ _ Ho Hc) as E1.
  split; [by exists c, st1|].
  intros a b. rewrite !DraftMyID_channel_unfold, E.
  destruct (new_Proxy_object c (DraftMyID.get a) Ho) as (o & -> & Ha).
  exists (mkProxy o (DraftMyID.get a)), (mkProxy o (DraftMyID.get b)), st1.
  rewrite DraftMyID_channel_unfold, E1. by simpl.
Qed.

Lemma new_MockChannel_eq (name : string) (st : state) :
  new_MockChannel name st =
  (S (length (heap st)),
   mkState (heap st ++ fresh_channel name st) (channels st) (ids st)
           (id_writes st) (host_get st)).
Proof.
  unfold new_MockChannel, alloc, fresh_channel; simpl.
  rewrite length_app; simpl. rewrite <- app_assoc; simpl.
  do 2 f_equal. lia.
Qed.

(** A name that is neither stored nor inherited: a Channel with empty
    membership is constructed, stored under the name and returned. *)
Lemma channel_creates (name : string) (st : state) :
  channels st !! name = None →
  inherited PlainObject name = VUndefined →
  DraftMembers.channel name st =
  (VObject (Heap (S (length (heap st)))),
   mkState (heap st ++ fresh_channel name st)
           (<[name := S (length (heap st))]> (channels st)) (ids st)
           (id_writes st) (host_get st)).
Proof.
  intros Hn Hi.
  assert (truthy (channels_get name st) = false) as Ht.
  { unfold channels_get. by rewrite Hn, Hi. }
  unfold DraftMembers.channel. rewrite Ht; cbn [negb].
  rewrite new_MockChannel_eq. by rewrite channels_get_insert.
Qed.

(** A stored name: the stored Channel is returned, nothing changes. *)
Lemma channel_stored (name : string) (st : state) (l : loc) :
  channels st !! name = Some l →
  DraftMembers.channel name st = (VObject (Heap l), st).
Proof.
  intros Hn. apply channel_again; [reflexivity|].
  unfold channels_get. by rewrite Hn.
Qed.

(** C9, at the name [toString]. No Channel is stored under it, yet the
    lookup constructs none: the registry is an object literal, the test
    [!this.channels[name]] reads the method it inherits, and that built-in
    function is what [channel] returns. The registry is left empty. *)
Theorem registry_inherited_name (host : value -> string -> value) :
  channels (initial host) !! "toString" = None
  ∧ DraftMembers.channel "toString" (initial host)
    = (VObject (Builtin "Object.prototype.toString"), initial host).
Proof. split; reflexivity. Qed.

(** ** Realms stay well formed *)

Lemma closed_mono (n m : nat) (v : value) :
  (n <= m)%nat → closed n v → closed m v.
Proof. destruct v as [| | |[l|b]]; simpl; auto. lia. Qed.

Lemma inherited_closed (c : class) (key : string) (n : nat) :
  closed n (inherited c key).
Proof. unfold inherited. repeat case_decide; exact I. Qed.

Lemma wf_initial (host : value -> string -> value) :
  (∀ b k, closed 0 (host b k)) → wf (initial host).
Proof.
  intros Hh. split; simpl; [| |exact Hh].
  - intros name l H. by rewrite lookup_empty in H.
  - intros l o k v H. by rewrite lookup_nil in H.
Qed.

Lemma wf_assign_id (client : nat) (v : value) (st : state) :
  wf st → wf (assign_id client v st).
Proof. intros [H1 H2 H3]. split; simpl; assumption. Qed.

Lemma wf_Get_closed (st : state) (o : objref) (key : string) :
  wf st → closed (length (heap st)) (Get o key st).
Proof.
  intros [H1 H2 H3]. destruct o as [l|b]; simpl.
  - destruct (heap st !! l) as [ob|] eqn:E; [|apply inherited_closed].
    unfold object_get. destruct (props ob !! key) eqn:Ek.
    + eapply H2; eauto.
    + apply inherited_closed.
  - eapply closed_mono; [|apply H3]. lia.
Qed.

Lemma wf_channel (name : string) (st : state) :
  wf st → wf (DraftMembers.channel name st).2.
Proof.
  intros Hwf. destruct Hwf as [H1 H2 H3].
  unfold DraftMembers.channel.
  destruct (truthy (channels_get name st)); cbn [negb]; [by split|].
  rewrite new_MockChannel_eq. split; simpl.
  - intros n l. rewrite length_app; simpl.
    destruct (decide (n = name)) as [->|Hne].
    + rewrite lookup_insert_eq. intros [= <-]. lia.
    + rewrite lookup_insert_ne by done. intros H. apply H1 in H. lia.
  - intros l o k v Hl Hk. rewrite length_app; simpl.
    apply lookup_app_Some in Hl as [Hl|[Hlen Hl]].
    + eapply closed_mono; [|eapply H2; eauto]. lia.
    + destruct (l - length (heap st)) as [|[|?]] eqn:El; simpl in Hl;
        try discriminate; injection Hl as <-; simpl in Hk.
      * by rewrite lookup_empty in Hk.
      * destruct (decide (k = "members")) as [->|Hk1].
        -- rewrite lookup_insert_eq in Hk. injection Hk as <-. simpl. lia.
        -- rewrite lookup_insert_ne in Hk by done.
           destruct (decide (k = "name")) as [->|Hk2].
           ++ rewrite lookup_insert_eq in Hk. by injection Hk as <-.
           ++ rewrite lookup_insert_ne in Hk by done.
              by rewrite lookup_empty in Hk.
  - exact H3.
Qed.

Lemma string_props_closed (s k : string) (v : value) (n : nat) :
  string_props s !! k = Some v → closed n v.
Proof.
  unfold string_props. intros H.
  apply elem_of_list_to_map_2, elem_of_lookup_imap_1 in H
    as (i & c & [= _ ->] & _).
  exact I.
Qed.

Lemma wf_spread_closed (st : state) (v w : value) (k : string) :
  wf st → closed (length (heap st)) v →
  spread v st !! k = Some w → closed (length (heap st)) w.
Proof.
  intros Hwf Hv. destruct v as [| |s|[l|b]]; simpl.
  - by rewrite lookup_empty.
  - by rewrite lookup_empty.
  - apply string_props_closed.
  - destruct (heap st !! l) as [o|] eqn:E; [|by rewrite lookup_empty].
    intros Hk. eapply wf_heap; eauto.
  - by rewrite lookup_empty.
Qed.

(** Storing an object whose properties are closed keeps the realm well
    formed. *)
Lemma wf_alloc (o : object) (st : state) :
  wf st →
  (∀ k v, props o !! k = Some v → closed (length (heap st)) v) →
  wf (alloc o st).2.
Proof.
  intros [H1 H2 H3] Ho. split; simpl; [| |exact H3].
  - intros name l H. rewrite length_app; simpl. apply H1 in H. lia.
  - intros l ob k v Hl Hk. rewrite length_app; simpl.
    eapply closed_mono with (n := length (heap st)); [lia|].
    apply lookup_app_Some in Hl as [Hl|[_ Hl]]; [by eapply H2|].
    destruct (l - length (heap st)) as [|?]; [|discriminate].
    injection Hl as <-. by eapply Ho.
Qed.

(** A read of [members] keeps the realm well formed when the reader's
    identity is closed. *)
Lemma wf_get_members (client : nat) (o : objref) (st : state) :
  wf st → closed (length (heap st)) (client_id client st) →
  wf (DraftMembers.get client o "members" st).2.
Proof.
  intros Hwf Hid. apply wf_alloc; [done|]. simpl. intros k v.
  destruct (decide (k = "myID")) as [->|Hk].
  - rewrite lookup_insert_eq. by intros [= <-].
  - rewrite lookup_insert_ne by done.
    apply wf_spread_closed; [done|]. by apply wf_Get_closed.
Qed.

(** So does a write of a closed value. *)
Lemma wf_Set (l : loc) (key : string) (v : value) (st st' : state) :
  wf st → closed (length (heap st)) v →
  Set_ (Heap l) key v st = Some st' → wf st'.
Proof.
  intros [H1 H2 H3] Hv. unfold Set_. case_decide; [discriminate|].
  destruct (heap st !! l) as [o|] eqn:E; [|discriminate].
  intros [= <-]. split; simpl; [| |exact H3].
  - intros name l' Hn. rewrite length_insert. by eapply H1.
  - intros l' ob k w Hl Hk. rewrite length_insert.
    destruct (decide (l' = l)) as [->|Hne].
    + rewrite list_lookup_insert_eq in Hl by (by eapply lookup_lt_Some).
      injection Hl as <-. simpl in Hk.
      destruct (decide (k = key)) as [->|Hkk].
      * rewrite lookup_insert_eq in Hk. by injection Hk as <-.
      * rewrite lookup_insert_ne in Hk by done. by eapply H2.
    + rewrite list_lookup_insert_ne in Hl by done. by eapply H2.
Qed.

(** ** Reads are stable under allocation *)

Lemma extends_refl (st : state) : extends st st.
Proof. by split. Qed.

Lemma extends_trans (st1 st2 st3 : state) :
  extends st1 st2 → extends st2 st3 → extends st1 st3.
Proof. intros [H1 G1] [H2 G2]. split; [auto | congruence]. Qed.

Lemma extends_alloc (o : object) (st : state) : extends st (alloc o st).2.
Proof.
  split; [|reflexivity]. simpl. intros l ob H.
  by apply lookup_app_l_Some.
Qed.

Lemma extends_length (st st' : state) :
  extends st st' → (length (heap st) <= length (heap st'))%nat.
Proof.
  intros [H _]. destruct (length (heap st)) as [|n] eqn:E; [lia|].
  destruct (lookup_lt_is_Some_2 (heap st) n ltac:(lia)) as [o Ho].
  apply H, lookup_lt_Some in Ho. lia.
Qed.

Lemma Get_extends (st st' : state) (o : objref) (key : string) :
  extends st st' → allocated st o → Get o key st' = Get o key st.
Proof.
  intros [H G] Ha. destruct o as [l|b]; unfold Get, allocated in *.
  - destruct (lookup_lt_is_Some_2 (heap st) l Ha) as [ob Hob].
    by rewrite Hob, (H _ _ Hob).
  - by rewrite G.
Qed.

Lemma spread_extends (st st' : state) (v : value) :
  extends st st' → closed (length (heap st)) v → spread v st' = spread v st.
Proof.
  intros [H G] Hc. destruct v as [| | |[l|b]]; try reflexivity.
  unfold spread, closed in *.
  destruct (lookup_lt_is_Some_2 (heap st) l Hc) as [ob Hob].
  by rewrite Hob, (H _ _ Hob).
Qed.

(** Writing a property of one object leaves every other object as it is. *)
Lemma Set_other (l : loc) (key : string) (v : value) (st st' : state) :
  Set_ (Heap l) key v st = Some st' →
  host_get st' = host_get st
  ∧ ids st' = ids st
  ∧ length (heap st') = length (heap st)
  ∧ ∀ l', l' ≠ l → heap st' !! l' = heap st !! l'.
Proof.
  unfold Set_. case_decide; [discriminate|].
  destruct (heap st !! l) as [o|]; [|discriminate].
  intros [= <-]; simpl. do 2 (split; [reflexivity|]).
  split; [apply length_insert|].
  intros l' Hne. by apply list_lookup_insert_ne.
Qed.

(** ... and the property reads back. *)
Lemma Set_Get (l : loc) (key : string) (v : value) (st : state) :
  key ≠ "__proto__" → l < length (heap st) →
  ∃ st', Set_ (Heap l) key v st = Some st'
         ∧ Get (Heap l) key st' = v
         ∧ channels st' = channels st ∧ ids st' = ids st.
Proof.
  intros Hk Hl. unfold Set_. rewrite decide_False by done.
  destruct (lookup_lt_is_Some_2 (heap st) l Hl) as [o Ho]. rewrite Ho.
  eexists; split; [reflexivity|]. simpl.
  rewrite list_lookup_insert_eq by done. unfold object_get; simpl.
  by rewrite lookup_insert_eq.
Qed.

(** ** The overlay *)

Lemma new_Proxy_Some (channel : value) g (p : Proxy) :
  new_Proxy channel g = Some p →
  channel = VObject (target p) ∧ handler_get p = g.
Proof. destruct channel; try discriminate. by intros [= <-]. Qed.

Lemma get_members (client : nat) (target : objref) (st : state) :
  DraftMembers.get client target "members" st =
  (VObject (Heap (length (heap st))), (alloc (merged client target st) st).2).
Proof. reflexivity. Qed.

Lemma get_members_myID (client : nat) (target : objref) (st : state) :
  Get (Heap (length (heap st))) "myID" (alloc (merged client target st) st).2
  = client_id client st.
Proof.
  unfold Get; simpl. rewrite list_lookup_middle by done.
  unfold object_get; simpl. by rewrite lookup_insert_eq.
Qed.

(** C3. Members-merge projection: a read of [members] on the overlay of a
    channel whose [members] is the object [o] returns an object that did not
    exist before the read, leaves every existing object as it was, and whose
    entries are those of [o] with the entry [myID] added or overridden by
    [client.id] as it is at the read. *)
Theorem members_merge (channel : value) (client : nat) (p : Proxy)
    (st : state) (mm : loc) (o : object) :
  DraftMembers.proxyMockChannel channel client = Some p →
  Get (target p) "members" st = VObject (Heap mm) →
  heap st !! mm = Some o →
  ∃ m st1 o1,
    Proxy_get p "members" st = (VObject (Heap m), st1)
    ∧ heap st !! m = None
    ∧ (∀ l ob, heap st !! l = Some ob → heap st1 !! l = Some ob)
    ∧ heap st1 !! m = Some o1
    ∧ props o1 = <["myID" := client_id client st]> (props o).
Proof.
  intros Hp Hm Ho. apply new_Proxy_Some in Hp as [_ Hg].
  unfold Proxy_get. rewrite Hg, get_members.
  eexists _, _, _. split; [reflexivity|].
  split; [by apply lookup_ge_None_2|].
  split; [apply extends_alloc|].
  split; [simpl; by apply list_lookup_middle|].
  unfold merged; simpl. rewrite Hm; simpl. by rewrite Ho.
Qed.

Lemma overlay_reads_id (channel : value) (client : nat) (p : Proxy)
    (st : state) :
  DraftMyID.proxyMockChannel channel client = Some p →
  Proxy_get p "myID" st = (client_id client st, st).
Proof.
  intros Hp. apply new_Proxy_Some in Hp as [_ Hg].
  unfold Proxy_get. by rewrite Hg.
Qed.

(** C5, amended. Bare self-identity field: on the overlay built by the
    [proxyMockChannel] that traps [myID], a read of [myID] is [client.id] as
    it is at the read; neither the channel nor the realm takes part. *)
Theorem bare_myID (channel : value) (client : nat) (p : Proxy) (st : state) :
  DraftMyID.proxyMockChannel channel client = Some p →
  Proxy_get p "myID" st = (client_id client st, st).
Proof. apply overlay_reads_id. Qed.

Lemma overlay_forwards (p : Proxy) (trapped key : string) (st : state) :
  overlay_of p trapped → key ≠ trapped →
  Proxy_get p key st = (Get (target p) key st, st).
Proof.
  intros Hp Hk. unfold Proxy_get.
  destruct Hp as [channel client Hp | channel client Hp];
    apply new_Proxy_Some in Hp as [_ ->].
  - unfold DraftMyID.get. by rewrite decide_False.
  - unfold DraftMembers.get. by rewrite decide_False.
Qed.

(** C6. Passthrough transparency: on the overlay of either draft, a read of
    any key but the one its trap intercepts is the read of that key on the
    underlying channel, value for value and with the realm untouched; the
    read is total, and a key the channel does not define reads
    [undefined] as it does on the channel. *)
Theorem passthrough (p : Proxy) (trapped key : string) (st : state) :
  overlay_of p trapped → key ≠ trapped →
  Proxy_get p key st = (Get (target p) key st, st)
  ∧ (Get (target p) key st = VUndefined →
     Proxy_get p key st = (VUndefined, st)).
Proof.
  intros Hp Hk. rewrite (overlay_forwards p trapped key st Hp Hk).
  split; [reflexivity | by intros ->].
Qed.

(** ** Subscribing *)

Lemma channel_frame (name : string) (st : state) :
  ids (DraftMembers.channel name st).2 = ids st
  ∧ id_writes (DraftMembers.channel name st).2 = id_writes st
  ∧ extends st (DraftMembers.channel name st).2.
Proof.
  unfold DraftMembers.channel.
  destruct (truthy (channels_get name st)); cbn [negb].
  - simpl. auto using extends_refl.
  - rewrite new_MockChannel_eq. simpl. do 2 (split; [reflexivity|]).
    split; [|reflexivity]. simpl. intros l o H. by apply lookup_app_l_Some.
Qed.

Lemma channels_get_allocated (name : string) (st : state) (o : objref) :
  wf st → channels_get name st = VObject o → allocated st o.
Proof.
  intros Hwf. unfold channels_get.
  destruct (channels st !! name) as [l|] eqn:E.
  - intros [= <-]. simpl. eapply wf_channels; eauto.
  - unfold inherited. repeat case_decide; intros [= <-]; exact I.
Qed.

(** What [subscribe] amounts to once the authorizer has run and left the
    realm [st1]. *)
Lemma subscribe_after (c : DraftMembers.MockClient) (name : string)
    (st st1 : state) :
  DraftMembers.authorize (DraftMembers.config c) (DraftMembers.setID c) st
    = Some st1 →
  ∃ o st2,
    DraftMembers.channel name st1 = (VObject o, st2)
    ∧ DraftMembers.subscribe c name st
      = Some (mkProxy o (DraftMembers.get (DraftMembers.this c)), st2).
Proof.
  intros Ha. unfold DraftMembers.subscribe. rewrite Ha; cbn.
  destruct (DraftMembers.channel name st1) as [ch st2] eqn:E.
  destruct (channel_returns _ _ _ _ E) as [Ho _].
  destruct ch as [| | |o]; try discriminate.
  by exists o, st2.
Qed.

Lemma client_id_assign (c : nat) (v : value) (st : state) :
  client_id c (assign_id c v st) = v.
Proof. unfold client_id; simpl. by rewrite lookup_insert_eq. Qed.

Lemma client_id_assign_ne (c c' : nat) (v : value) (st : state) :
  c ≠ c' → client_id c' (assign_id c v st) = client_id c' st.
Proof. intros H. unfold client_id; simpl. by rewrite lookup_insert_ne. Qed.

Lemma client_id_ids (c : nat) (st st' : state) :
  ids st' = ids st → client_id c st' = client_id c st.
Proof. unfold client_id. by intros ->. Qed.

Lemma own_prop_merged (client : nat) (o : objref) (st : state) (k : string) :
  own_prop (length (heap st)) k (alloc (merged client o st) st).2
  = (<["myID" := client_id client st]> (spread (Get o "members" st) st)) !! k.
Proof.
  unfold own_prop; simpl. by rewrite list_lookup_middle.
Qed.

Lemma own_prop_extends (l : loc) (k : string) (st st' : state) :
  extends st st' → l < length (heap st) →
  own_prop l k st' = own_prop l k st.
Proof.
  intros [H _] Hl. unfold own_prop.
  destruct (lookup_lt_is_Some_2 (heap st) l Hl) as [o Ho].
  by rewrite Ho, (H _ _ Ho).
Qed.

(** The base a merge starts from is the same before and after a realm
    grows. *)
Lemma base_extends (o : objref) (st st' : state) :
  wf st → allocated st o → extends st st' →
  spread (Get o "members" st') st' = spread (Get o "members" st) st.
Proof.
  intros Hwf Ha He. rewrite (Get_extends st st') by done.
  apply spread_extends; [done|]. by apply wf_Get_closed.
Qed.

(** C2. Identity isolation: two distinct clients whose authorizers resolve
    the distinct identities [a] and [b] subscribe to one name. Both
    subscriptions return a view, the two views have the identical target,
    the [myID] entry of the members read through A's view is [a] and through
    B's view is [b] (so they differ), and the two mappings agree on every
    other entry. *)
Theorem identity_isolation (A B : DraftMembers.MockClient) (a b : value)
    (name : string) (st : state) :
  wf st →
  DraftMembers.this A ≠ DraftMembers.this B →
  a ≠ b →
  DraftMembers.config A = DraftMembers.authorizes a →
  DraftMembers.config B = DraftMembers.authorizes b →
  ∃ vA st1 vB st2 mA stA mB stB,
    DraftMembers.subscribe A name st = Some (vA, st1)
    ∧ DraftMembers.subscribe B name st1 = Some (vB, st2)
    ∧ target vA = target vB
    ∧ Proxy_get vA "members" st2 = (VObject (Heap mA), stA)
    ∧ Proxy_get vB "members" stA = (VObject (Heap mB), stB)
    ∧ own_prop mA "myID" stB = Some a
    ∧ own_prop mB "myID" stB = Some b
    ∧ own_prop mA "myID" stB ≠ own_prop mB "myID" stB
    ∧ (∀ k, k ≠ "myID" → own_prop mA k stB = own_prop mB k stB).
Proof.
  intros Hwf Hne Hab HA HB.
  (* A subscribes *)
  destruct (subscribe_after A name st (DraftMembers.setID A a st))
    as (o & st1 & E1 & SA); [by rewrite HA|].
  destruct (channel_returns _ _ _ _ E1) as [_ Hc1].
  pose proof (channel_frame name (DraftMembers.setID A a st)) as (Hi1 & _ & _).
  pose proof (wf_channel name (DraftMembers.setID A a st)
                (wf_assign_id (DraftMembers.this A) a st Hwf)) as Hwf1.
  rewrite E1 in Hi1, Hwf1; simpl in Hi1, Hwf1.
  (* B subscribes and finds the channel A left *)
  set (st2 := DraftMembers.setID B b st1).
  assert (DraftMembers.channel name st2 = (VObject o, st2)) as E2.
  { apply channel_again; [reflexivity | exact Hc1]. }
  destruct (subscribe_after B name st1 st2) as (o' & st2' & E2' & SB);
    [by rewrite HB|].
  rewrite E2 in E2'. injection E2' as <- <-.
  assert (wf st2) as Hwf2 by (by apply wf_assign_id).
  assert (allocated st2 o) as Hal.
  { eapply channels_get_allocated; [exact Hwf2 | exact Hc1]. }
  assert (client_id (DraftMembers.this A) st2 = a) as HidA.
  { unfold st2, DraftMembers.setID.
    rewrite client_id_assign_ne by done.
    unfold client_id. by rewrite Hi1, lookup_insert_eq. }
  assert (client_id (DraftMembers.this B) st2 = b) as HidB.
  { apply client_id_assign. }
  (* the two reads *)
  set (stA := (alloc (merged (DraftMembers.this A) o st2) st2).2).
  set (stB := (alloc (merged (DraftMembers.this B) o stA) stA).2).
  assert (extends st2 stA) as HeA by apply extends_alloc.
  assert (extends stA stB) as HeB by apply extends_alloc.
  assert (own_prop (length (heap st2)) "myID" stB = Some a) as RA.
  { rewrite (own_prop_extends _ _ stA stB HeB)
      by (unfold stA; simpl; rewrite length_app; simpl; lia).
    unfold stA. rewrite own_prop_merged, lookup_insert_eq. by rewrite HidA. }
  assert (own_prop (length (heap stA)) "myID" stB = Some b) as RB.
  { unfold stB. rewrite own_prop_merged, lookup_insert_eq.
    by rewrite (client_id_ids _ st2 stA eq_refl), HidB. }
  exists (mkProxy o (DraftMembers.get (DraftMembers.this A))), st1,
         (mkProxy o (DraftMembers.get (DraftMembers.this B))), st2,
         (length (heap st2)), stA, (length (heap stA)), stB.
  repeat split; try done.
  - rewrite RA, RB. congruence.
  - intros k Hk.
    rewrite (own_prop_extends _ _ stA stB HeB)
      by (unfold stA; simpl; rewrite length_app; simpl; lia).
    unfold stA at 1, stB. rewrite !own_prop_merged.
    rewrite !lookup_insert_ne by done.
    by rewrite (base_extends o st2 stA).
Qed.

(** C4. Live read: a client whose authorizer keeps the callback for later
    subscribes while its [id] is unassigned. [subscribe] returns a view at
    once; the [myID] entry read through it is present and holds
    [undefined]; after the callback has run ([setID]), a read through the
    same view holds the resolved identity. In any realm whatever, the entry
    is [client.id] of that realm: nothing is kept from the time the view
    was made. *)
Theorem live_read (c : DraftMembers.MockClient) (name : string) (id : value)
    (st : state) :
  DraftMembers.config c = DraftMembers.defers →
  client_id (DraftMembers.this c) st = VUndefined →
  ∃ p st1 m1 st2 m2 st3,
    DraftMembers.subscribe c name st = Some (p, st1)
    ∧ Proxy_get p "members" st1 = (VObject (Heap m1), st2)
    ∧ own_prop m1 "myID" st2 = Some VUndefined
    ∧ Proxy_get p "members" (DraftMembers.setID c id st2)
      = (VObject (Heap m2), st3)
    ∧ own_prop m2 "myID" st3 = Some id
    ∧ (∀ st', ∃ m st'',
          Proxy_get p "members" st' = (VObject (Heap m), st'')
          ∧ own_prop m "myID" st'' = Some (client_id (DraftMembers.this c) st')).
Proof.
  intros Hc Hid.
  destruct (subscribe_after c name st st) as (o & st1 & E & S);
    [by rewrite Hc|].
  pose proof (channel_frame name st) as (Hi & _ & _).
  rewrite E in Hi; simpl in Hi.
  set (cl := DraftMembers.this c) in *.
  exists (mkProxy o (DraftMembers.get cl)), st1.
  exists (length (heap st1)), (alloc (merged cl o st1) st1).2.
  set (st2 := (alloc (merged cl o st1) st1).2).
  exists (length (heap (DraftMembers.setID c id st2))),
         (alloc (merged cl o (DraftMembers.setID c id st2))
                (DraftMembers.setID c id st2)).2.
  split; [exact S|]. split; [reflexivity|].
  split.
  { unfold st2. rewrite own_prop_merged, lookup_insert_eq.
    by rewrite (client_id_ids cl st st1 Hi), Hid. }
  split; [reflexivity|].
  split.
  { rewrite own_prop_merged, lookup_insert_eq.
    unfold DraftMembers.setID. fold cl. by rewrite client_id_assign. }
  intros st'. exists (length (heap st')), (alloc (merged cl o st') st').2.
  split; [reflexivity|].
  by rewrite own_prop_merged, lookup_insert_eq.
Qed.

Lemma Set_fresh_extends (st st1 st2 : state) (key : string) (v : value) :
  extends st st1 →
  Set_ (Heap (length (heap st))) key v st1 = Some st2 →
  extends st st2 ∧ ids st2 = ids st1.
Proof.
  intros [H G] HS. apply Set_other in HS as (Hh & Hi & _ & Ho).
  split; [|exact Hi]. split; [|congruence].
  intros l o Hl. rewrite Ho; [by apply H|].
  apply lookup_lt_Some in Hl. lia.
Qed.

(** C7. No mutation leakage: a read of [members] through a view leaves every
    existing object as it was, and so does any write to the mapping it
    returned: the channel's [members] and its entries are afterwards what
    they were. A later read through another client's view of the same
    channel is the merge of that untouched base with the reader's own
    [client.id]. *)
Theorem no_mutation_leakage (channel : value) (client other : nat)
    (p q : Proxy) (st : state) :
  wf st →
  DraftMembers.proxyMockChannel channel client = Some p →
  DraftMembers.proxyMockChannel channel other = Some q →
  allocated st (target p) →
  ∃ m st1,
    Proxy_get p "members" st = (VObject (Heap m), st1)
    ∧ extends st st1
    ∧ ∀ key v st2,
        Set_ (Heap m) key v st1 = Some st2 →
        extends st st2
        ∧ Get (target p) "members" st2 = Get (target p) "members" st
        ∧ spread (Get (target p) "members" st2) st2
          = spread (Get (target p) "members" st) st
        ∧ ∃ m' st3,
            Proxy_get q "members" st2 = (VObject (Heap m'), st3)
            ∧ ∀ k, own_prop m' k st3
                   = (<["myID" := client_id other st]>
                        (spread (Get (target p) "members" st) st)) !! k.
Proof.
  intros Hwf Hp Hq Hal.
  apply new_Proxy_Some in Hp as [Hc Hg].
  apply new_Proxy_Some in Hq as [Hc' Hg'].
  assert (target q = target p) as Ht by congruence.
  exists (length (heap st)), (alloc (merged client (target p) st) st).2.
  split; [unfold Proxy_get; by rewrite Hg|].
  split; [apply extends_alloc|].
  intros key v st2 HS.
  destruct (Set_fresh_extends st _ st2 key v (extends_alloc _ st) HS)
    as [He Hi].
  split; [exact He|].
  split; [by apply Get_extends|].
  split; [by apply base_extends|].
  exists (length (heap st2)), (alloc (merged other (target q) st2) st2).2.
  split; [unfold Proxy_get; by rewrite Hg'|].
  intros k. rewrite own_prop_merged, Ht.
  rewrite (base_extends (target p) st st2) by done.
  by rewrite (client_id_ids other st st2 Hi).
Qed.

(** [client.test.js]: the view of a client whose authorizer resolves
    [my-id] reads [members.myID] as [my-id]. *)
Example client_test :
  ∃ p st1 m st2,
    DraftMembers.subscribe
      (DraftMembers.mkMockClient 0 (DraftMembers.authorizes (VString "my-id")))
      "my-channel" (initial bare_host) = Some (p, st1)
    ∧ Proxy_get p "members" st1 = (VObject (Heap m), st2)
    ∧ Get (Heap m) "myID" st2 = VString "my-id"
    ∧ Get (target p) "name" st2 = VString "my-channel".
Proof. eexists _, _, _, _. repeat split. Qed.

(** The channel of [room_realm]. *)
Example room_realm_heap :
  heap room_realm =
  [ mkObject PlainObject ∅;
    mkObject MockChannelInstance
      (<["members" := VObject (Heap 0)]> (<["name" := VString "room"]> ∅)) ]
  ∧ channels room_realm !! "room" = Some 1.
Proof. split; reflexivity. Qed.

(** ** Assignments to the identity *)

(** With an authorizer that calls the callback once, [subscribe] of the
    draft with [setID] assigns [this.id] once, the resolved identity. *)
Lemma setID_once (c : DraftMembers.MockClient) (name : string) (id : value)
    (st : state) :
  DraftMembers.config c = DraftMembers.authorizes id →
  ∃ p st1,
    DraftMembers.subscribe c name st = Some (p, st1)
    ∧ id_writes st1 = (id_writes st ++ [(DraftMembers.this c, id)])%list
    ∧ client_id (DraftMembers.this c) st1 = id.
Proof.
  intros Hc.
  destruct (subscribe_after c name st (DraftMembers.setID c id st))
    as (o & st1 & E & S); [by rewrite Hc|].
  pose proof (channel_frame name (DraftMembers.setID c id st)) as (Hi & Hw & _).
  rewrite E in Hi, Hw. cbn [snd] in Hi, Hw.
  eexists _, st1. split; [exact S|]. split; [by rewrite Hw|].
  rewrite (client_id_ids _ _ _ Hi). apply client_id_assign.
Qed.

(** C8, at the client of [create-client.test.js]. [subscribe] of
    [mock-client.js] assigns [this.id] twice: the callback stores the
    resolved identity, then [this.id = this.config.authorizer(callback)]
    stores what the authorizer returned, [undefined]. The identity ends
    unassigned and the view reads [myID] as [undefined], where the test
    expects the resolved identity. *)
Theorem subscribe_assigns_twice (host : value -> string -> value) :
  ∃ p st1,
    DraftMyID.subscribe (DraftMyID.createClient (VString "my-id") 0)
                        "my-channel" (initial host) = Some (p, st1)
    ∧ id_writes st1 = [(0, VString "my-id"); (0, VUndefined)]
    ∧ client_id 0 st1 = VUndefined
    ∧ Proxy_get p "myID" st1 = (VUndefined, st1).
Proof.
  eexists _, _. split; [reflexivity|]. repeat split.
Qed.

(** ** Writes through a view *)

(** C10, amended. The handler has no [set] trap: assigning a property (any
    key but [__proto__]) on a view stores the value on the underlying
    Channel. Every view of that Channel then reads the value back unchanged
    under any key its [get] trap does not intercept. Under the intercepted
    key the read is still the trap's: [myID] is the reader's [client.id],
    [members] is a new object, the entries of the assigned value merged with
    the reader's [myID]. *)
Theorem writes_pierce (pA pB : Proxy) (l : loc) (key : string) (v : value)
    (st : state) :
  target pA = Heap l → target pB = Heap l →
  l < length (heap st) → key ≠ "__proto__" →
  ∃ st',
    Proxy_set pA key v st = Some st'
    ∧ Get (Heap l) key st' = v
    ∧ (∀ trapped, overlay_of pB trapped → key ≠ trapped →
         Proxy_get pB key st' = (v, st'))
    ∧ (∀ channel client,
         DraftMyID.proxyMockChannel channel client = Some pB →
         key = "myID" →
         Proxy_get pB key st' = (client_id client st, st'))
    ∧ (∀ channel client,
         DraftMembers.proxyMockChannel channel client = Some pB →
         key = "members" →
         ∃ m st'',
           Proxy_get pB key st' = (VObject (Heap m), st'')
           ∧ heap st' !! m = None
           ∧ ∀ k, own_prop m k st''
                  = (<["myID" := client_id client st]> (spread v st')) !! k).
Proof.
  intros HA HB Hl Hk.
  destruct (Set_Get l key v st Hk Hl) as (st' & HS & HG & _ & Hi).
  exists st'. unfold Proxy_set. rewrite HA.
  split; [exact HS|]. split; [exact HG|].
  split; [|split].
  - intros trapped Ho Hne. rewrite (overlay_forwards pB trapped key st' Ho Hne).
    by rewrite HB, HG.
  - intros channel client Hp ->.
    rewrite (overlay_reads_id channel client pB st' Hp).
    by rewrite (client_id_ids client st st' Hi).
  - intros channel client Hp ->.
    apply new_Proxy_Some in Hp as [_ Hg].
    exists (length (heap st')), (alloc (merged client (Heap l) st') st').2.
    unfold Proxy_get. rewrite Hg, HB.
    split; [reflexivity|]. split; [by apply lookup_ge_None_2|].
    intros k. rewrite own_prop_merged, HG.
    by rewrite (client_id_ids client st st' Hi).
Qed.

(** C10 as stated fails. Two views of the channel [room]: a write of [myID]
    through the first reaches the Channel, yet the second view still reads
    its own client's identity under [myID]; and a value assigned to
    [members] through a view of the other draft is not what a second view
    reads back, which is a new object. *)
Lemma writes_pierce_counterexample :
  ∃ vA vB st',
    DraftMyID.channel "room" 0 room_realm = Some (vA, room_realm)
    ∧ DraftMyID.channel "room" 1 room_realm = Some (vB, room_realm)
    ∧ Proxy_set vA "myID" (VString "x") room_realm = Some st'
    ∧ Get (target vB) "myID" st' = VString "x"
    ∧ (Proxy_get vB "myID" st').1 = VString "bob"
    ∧ (Proxy_get vB "myID" st').1 ≠ VString "x"
    ∧ ∃ wA wB st'',
        DraftMembers.proxyMockChannel (VObject (target vA)) 0 = Some wA
        ∧ DraftMembers.proxyMockChannel (VObject (target vA)) 1 = Some wB
        ∧ Proxy_set wA "members" (VString "hi") room_realm = Some st''
        ∧ Get (target wB) "members" st'' = VString "hi"
        ∧ (Proxy_get wB "members" st'').1 = VObject (Heap 2)
        ∧ (Proxy_get wB "members" st'').1 ≠ VString "hi".
Proof.
  eexists _, _, _. do 5 (split; [reflexivity|]). split; [discriminate|].
  eexists _, _, _. do 5 (split; [reflexivity|]). discriminate.
Qed.

(** C5 as stated fails on the overlay built by the [proxyMockChannel] that
    traps [members]. A client resolves the identity [bob] and subscribes to
    [room]: a read of [myID] on its view is the Channel's, [undefined], not
    [client.id]; after another view has written [myID], it reads what was
    written. *)
Lemma bare_myID_counterexample :
  ∃ p st1 q st2 st3,
    DraftMembers.subscribe
      (DraftMembers.mkMockClient 1 (DraftMembers.authorizes (VString "bob")))
      "room" room_realm = Some (p, st1)
    ∧ client_id 1 st1 = VString "bob"
    ∧ Proxy_get p "myID" st1 = (VUndefined, st1)
    ∧ (Proxy_get p "myID" st1).1 ≠ client_id 1 st1
    ∧ DraftMembers.subscribe
        (DraftMembers.mkMockClient 0 (DraftMembers.authorizes (VString "alice")))
        "room" st1 = Some (q, st2)
    ∧ Proxy_set q "myID" (VString "mallory") st2 = Some st3
    ∧ client_id 1 st3 = VString "bob"
    ∧ Proxy_get p "myID" st3 = (VString "mallory", st3).
Proof.
  eexists _, _, _, _, _.
  do 3 (split; [reflexivity|]). split; [discriminate|].
  repeat split.
Qed.

(** ** The theorems at concrete inputs *)

Lemma wf_room_realm : wf room_realm.
Proof.
  apply wf_channel. do 2 apply wf_assign_id.
  apply wf_initial. intros b k. exact I.
Qed.

Lemma identity_isolation_witness :
  ∃ vA st1 vB st2 mA stA mB stB,
    DraftMembers.subscribe
      (DraftMembers.mkMockClient 0 (DraftMembers.authorizes (VString "alice")))
      "room-1" (initial bare_host) = Some (vA, st1)
    ∧ DraftMembers.subscribe
        (DraftMembers.mkMockClient 1 (DraftMembers.authorizes (VString "bob")))
        "room-1" st1 = Some (vB, st2)
    ∧ target vA = target vB
    ∧ Proxy_get vA "members" st2 = (VObject (Heap mA), stA)
    ∧ Proxy_get vB "members" stA = (VObject (Heap mB), stB)
    ∧ own_prop mA "myID" stB = Some (VString "alice")
    ∧ own_prop mB "myID" stB = Some (VString "bob")
    ∧ own_prop mA "myID" stB ≠ own_prop mB "myID" stB
    ∧ (∀ k, k ≠ "myID" → own_prop mA k stB = own_prop mB k stB).
Proof.
  apply (identity_isolation
           (DraftMembers.mkMockClient 0 (DraftMembers.authorizes (VString "alice")))
           (DraftMembers.mkMockClient 1 (DraftMembers.authorizes (VString "bob")))
           (VString "alice") (VString "bob") "room-1" (initial bare_host)).
  - apply wf_initial. intros b k. exact I.
  - simpl. lia.
  - discriminate.
  - reflexivity.
  - reflexivity.
Defined.

Lemma members_merge_witness :
  ∃ m st1 o1,
    Proxy_get (mkProxy (Heap 1) (DraftMembers.get 0)) "members" room_realm
      = (VObject (Heap m), st1)
    ∧ heap room_realm !! m = None
    ∧ (∀ l ob, heap room_realm !! l = Some ob → heap st1 !! l = Some ob)
    ∧ heap st1 !! m = Some o1
    ∧ props o1 = <["myID" := client_id 0 room_realm]> (props (mkObject PlainObject ∅)).
Proof.
  apply (members_merge (VObject (Heap 1)) 0
           (mkProxy (Heap 1) (DraftMembers.get 0)) room_realm 0
           (mkObject PlainObject ∅)); reflexivity.
Defined.

Lemma live_read_witness :
  ∃ p st1 m1 st2 m2 st3,
    DraftMembers.subscribe (DraftMembers.mkMockClient 0 DraftMembers.defers)
                           "room" (initial bare_host) = Some (p, st1)
    ∧ Proxy_get p "members" st1 = (VObject (Heap m1), st2)
    ∧ own_prop m1 "myID" st2 = Some VUndefined
    ∧ Proxy_get p "members"
        (DraftMembers.setID (DraftMembers.mkMockClient 0 DraftMembers.defers)
                            (VString "alice") st2)
      = (VObject (Heap m2), st3)
    ∧ own_prop m2 "myID" st3 = Some (VString "alice")
    ∧ (∀ st', ∃ m st'',
          Proxy_get p "members" st' = (VObject (Heap m), st'')
          ∧ own_prop m "myID" st'' = Some (client_id 0 st')).
Proof.
  apply (live_read (DraftMembers.mkMockClient 0 DraftMembers.defers) "room"
           (VString "alice") (initial bare_host)); reflexivity.
Defined.

Lemma bare_myID_witness :
  Proxy_get (mkProxy (Heap 1) (DraftMyID.get 1)) "myID" room_realm
  = (VString "bob", room_realm).
Proof.
  apply (bare_myID (VObject (Heap 1)) 1 (mkProxy (Heap 1) (DraftMyID.get 1))
           room_realm).
  reflexivity.
Defined.

Lemma passthrough_witness :
  Proxy_get (mkProxy (Heap 1) (DraftMembers.get 0)) "name" room_realm
    = (Get (Heap 1) "name" room_realm, room_realm)
  ∧ (Get (Heap 1) "name" room_realm = VUndefined →
     Proxy_get (mkProxy (Heap 1) (DraftMembers.get 0)) "name" room_realm
       = (VUndefined, room_realm)).
Proof.
  apply (passthrough (mkProxy (Heap 1) (DraftMembers.get 0)) "members" "name"
           room_realm).
  - apply (overlay_members _ (VObject (Heap 1)) 0). reflexivity.
  - discriminate.
Defined.

Lemma no_mutation_leakage_witness :
  ∃ m st1,
    Proxy_get (mkProxy (Heap 1) (DraftMembers.get 0)) "members" room_realm
      = (VObject (Heap m), st1)
    ∧ extends room_realm st1
    ∧ ∀ key v st2,
        Set_ (Heap m) key v st1 = Some st2 →
        extends room_realm st2
        ∧ Get (Heap 1) "members" st2 = Get (Heap 1) "members" room_realm
        ∧ spread (Get (Heap 1) "members" st2) st2
          = spread (Get (Heap 1) "members" room_realm) room_realm
        ∧ ∃ m' st3,
            Proxy_get (mkProxy (Heap 1) (DraftMembers.get 1)) "members" st2
              = (VObject (Heap m'), st3)
            ∧ ∀ k, own_prop m' k st3
                   = (<["myID" := client_id 1 room_realm]>
                        (spread (Get (Heap 1) "members" room_realm)
                                room_realm)) !! k.
Proof.
  apply (no_mutation_leakage (VObject (Heap 1)) 0 1
           (mkProxy (Heap 1) (DraftMembers.get 0))
           (mkProxy (Heap 1) (DraftMembers.get 1)) room_realm).
  - apply wf_room_realm.
  - reflexivity.
  - reflexivity.
  - simpl. vm_compute. lia.
Defined.

Lemma writes_pierce_witness :
  ∃ st',
    Proxy_set (mkProxy (Heap 1) (DraftMyID.get 0)) "topic" (VString "tea")
              room_realm = Some st'
    ∧ Get (Heap 1) "topic" st' = VString "tea"
    ∧ (∀ trapped,
         overlay_of (mkProxy (Heap 1) (DraftMembers.get 1)) trapped →
         "topic" ≠ trapped →
         Proxy_get (mkProxy (Heap 1) (DraftMembers.get 1)) "topic" st'
           = (VString "tea", st'))
    ∧ (∀ channel client,
         DraftMyID.proxyMockChannel channel client
           = Some (mkProxy (Heap 1) (DraftMembers.get 1)) →
         "topic" = "myID" →
         Proxy_get (mkProxy (Heap 1) (DraftMembers.get 1)) "topic" st'
           = (client_id client room_realm, st'))
    ∧ (∀ channel client,
         DraftMembers.proxyMockChannel channel client
           = Some (mkProxy (Heap 1) (DraftMembers.get 1)) →
         "topic" = "members" →
         ∃ m st'',
           Proxy_get (mkProxy (Heap 1) (DraftMembers.get 1)) "topic" st'
             = (VObject (Heap m), st'')
           ∧ heap st' !! m = None
           ∧ ∀ k, own_prop m k st''
                  = (<["myID" := client_id client room_realm]>
                       (spread (VString "tea") st')) !! k).
Proof.
  apply (writes_pierce (mkProxy (Heap 1) (DraftMyID.get 0))
           (mkProxy (Heap 1) (DraftMembers.get 1)) 1 "topic" (VString "tea")
           room_realm).
  - reflexivity.
  - reflexivity.
  - vm_compute. lia.
  - discriminate.
Defined.

(** * Further properties of the registry *)

Lemma registry_ok_initial (host : value -> string -> value) :
  registry_ok (initial host).
Proof.
  split; simpl; intros *; by rewrite lookup_empty.
Qed.

(** What one lookup does to the registry and to the heap. *)
Lemma channel_registry (name : string) (st : state) (c : value) (st1 : state) :
  registry_ok st →
  DraftMembers.channel name st = (c, st1) →
  registry_ok st1
  ∧ (∀ n l, channels st !! n = Some l → channels st1 !! n = Some l)
  ∧ (∀ n, n ≠ name → channels st1 !! n = channels st !! n)
  ∧ extends st st1.
Proof.
  intros [Hobj Hinj]. unfold DraftMembers.channel.
  destruct (truthy (channels_get name st)) eqn:Ht; cbn [negb].
  { intros [= <- <-]. repeat split; auto. }
  rewrite new_MockChannel_eq. rewrite channels_get_insert.
  intros [= <- <-]. simpl.
  assert (channels st !! name = None) as Hn.
  { unfold channels_get in Ht. by destruct (channels st !! name). }
  assert (∀ n l, channels st !! n = Some l → l < length (heap st)) as Hlt.
  { intros n l H. destruct (Hobj n l H) as (o & Ho & _).
    by eapply lookup_lt_Some. }
  split; [split|]; simpl.
  - intros n l. destruct (decide (n = name)) as [->|Hne].
    + rewrite lookup_insert_eq. intros [= <-].
      eexists. split.
      * rewrite lookup_app_r by lia.
        replace (S (length (heap st)) - length (heap st)) with 1 by lia.
        reflexivity.
      * reflexivity.
    + rewrite lookup_insert_ne by done. intros H.
      destruct (Hobj n l H) as (o & Ho & Hc). exists o.
      split; [by apply lookup_app_l_Some | done].
  - intros n1 n2 l.
    destruct (decide (n1 = name)) as [->|H1];
      destruct (decide (n2 = name)) as [->|H2]; try done.
    + rewrite lookup_insert_eq, lookup_insert_ne by done.
      intros [= <-] H. apply Hlt in H. lia.
    + rewrite lookup_insert_eq, lookup_insert_ne by done.
      intros H [= <-]. apply Hlt in H. lia.
    + rewrite !lookup_insert_ne by done. apply Hinj.
  - split; [|split].
    + intros n l H. rewrite lookup_insert_ne; [done|]. congruence.
    + intros n Hne. by rewrite lookup_insert_ne.
    + split; [|reflexivity]. simpl. intros l o H. by apply lookup_app_l_Some.
Qed.

Lemma inherited_inj (n1 n2 : string) :
  is_object (inherited PlainObject n1) = true →
  inherited PlainObject n1 = inherited PlainObject n2 → n1 = n2.
Proof.
  unfold inherited.
  repeat case_decide; simpl; try discriminate; try congruence.
  all: try (destruct_and?; discriminate).
  intros _ [= E]. by apply (inj _) in E.
Qed.

Lemma inherited_not_heap (c : class) (key : string) (l : loc) :
  inherited c key ≠ VObject (Heap l).
Proof. unfold inherited. repeat case_decide; discriminate. Qed.

(** X1. Registry distinctness: lookups of two different names never return
    the same object, whether the names are stored, created by the lookup or
    inherited by the registry object. *)
Theorem registry_distinct (n1 n2 : string) (st st1 st2 : state)
    (c1 c2 : value) :
  registry_ok st → n1 ≠ n2 →
  DraftMembers.channel n1 st = (c1, st1) →
  DraftMembers.channel n2 st1 = (c2, st2) →
  c1 ≠ c2.
Proof.
  intros Hok Hne E1 E2.
  destruct (channel_registry _ _ _ _ Hok E1) as (Hok1 & _ & _ & _).
  destruct (channel_registry _ _ _ _ Hok1 E2) as ([_ Hinj] & Hmono & _ & _).
  destruct (channel_returns _ _ _ _ E1) as [Ho1 Hc1].
  destruct (channel_returns _ _ _ _ E2) as [_ Hc2].
  subst c1 c2. unfold channels_get in *.
  destruct (channels st1 !! n1) as [l1|] eqn:L1.
  - apply Hmono in L1.
    destruct (channels st2 !! n2) as [l2|] eqn:L2.
    + intros [= <-]. apply Hne. by eapply Hinj.
    + intros H. symmetry in H. by apply inherited_not_heap in H.
  - destruct (channels st2 !! n2) as [l2|] eqn:L2.
    + apply inherited_not_heap.
    + intros H. apply Hne. by apply inherited_inj.
Qed.

Lemma room_realm_channels : channels room_realm = <["room" := 1]> ∅.
Proof. reflexivity. Qed.

Lemma registry_ok_room_realm : registry_ok room_realm.
Proof.
  split; rewrite room_realm_channels.
  - intros n l H. apply lookup_insert_Some in H as [[<- <-]|[_ H]].
    + eexists. split; reflexivity.
    + by rewrite lookup_empty in H.
  - intros n1 n2 l H1 H2.
    apply lookup_insert_Some in H1 as [[<- <-]|[_ H1]];
      [|by rewrite lookup_empty in H1].
    apply lookup_insert_Some in H2 as [[<- _]|[_ H2]];
      [done | by rewrite lookup_empty in H2].
Qed.

Lemma registry_distinct_witness :
  (DraftMembers.channel "room" room_realm).1
  ≠ (DraftMembers.channel "lobby" room_realm).1.
Proof.
  apply (registry_distinct "room" "lobby" room_realm room_realm
           (DraftMembers.channel "lobby" room_realm).2).
  - apply registry_ok_room_realm.
  - discriminate.
  - reflexivity.
  - reflexivity.
Defined.

Lemma lookups_keep (names : list string) (st : state) :
  (∀ n l, channels st !! n = Some l → channels (lookups names st) !! n = Some l)
  ∧ extends st (lookups names st)
  ∧ ids (lookups names st) = ids st.
Proof.
  revert st. induction names as [|name names IH]; intros st.
  - simpl. auto using extends_refl.
  - change (lookups (name :: names) st)
      with (lookups names (DraftMembers.channel name st).2).
    destruct (IH (DraftMembers.channel name st).2) as (Hm & He & Hi).
    destruct (channel_frame name st) as (Hi1 & _ & He1).
    split; [|split].
    + intros n l H. apply Hm.
      unfold DraftMembers.channel.
      destruct (truthy (channels_get name st)) eqn:Ht; cbn [negb snd]; [done|].
      rewrite new_MockChannel_eq. simpl.
      rewrite lookup_insert_ne; [done|]. intros ->.
      unfold channels_get in Ht. by rewrite H in Ht.
    + by eapply extends_trans.
    + congruence.
Qed.

(** X2. The registry only grows: after any run of lookups every name that
    was stored is still stored with the same Channel, every object that
    existed is as it was, and no client's identity has changed. *)
Theorem registry_only_grows (names : list string) (st : state) :
  (∀ n l, channels st !! n = Some l → channels (lookups names st) !! n = Some l)
  ∧ (∀ l o, heap st !! l = Some o → heap (lookups names st) !! l = Some o)
  ∧ ids (lookups names st) = ids st.
Proof.
  destruct (lookups_keep names st) as (Hm & [He _] & Hi). auto.
Qed.

(** X3. For every name the registry object does not inherit, the lookup
    returns a stored [MockChannel]: the one stored under the name, or, when
    none is, a new one whose [name] is the name and whose [members] is a new
    empty object. The registry keeps its invariant. *)
Theorem registry_returns_channel (name : string) (st : state) :
  registry_ok st → plain_name name →
  ∃ l o st1,
    DraftMembers.channel name st = (VObject (Heap l), st1)
    ∧ channels st1 !! name = Some l
    ∧ heap st1 !! l = Some o
    ∧ cls o = MockChannelInstance
    ∧ registry_ok st1
    ∧ (channels st !! name = None →
       heap st !! l = None
       ∧ Get (Heap l) "name" st1 = VString name
       ∧ ∃ m, Get (Heap l) "members" st1 = VObject (Heap m)
              ∧ m ≠ l
              ∧ heap st !! m = None
              ∧ heap st1 !! m = Some (mkObject PlainObject ∅)).
Proof.
  intros Hok Hplain.
  destruct (channels st !! name) as [l|] eqn:Hn.
  - pose proof (channel_stored name st l Hn) as E.
    destruct Hok as [Hobj Hinj]. destruct (Hobj name l Hn) as (o & Ho & Hc).
    exists l, o, st. repeat split; try done.
  - pose proof (channel_creates name st Hn Hplain) as E.
    destruct (channel_registry _ _ _ _ Hok E) as (Hok1 & _ & _ & _).
    eexists (S (length (heap st))), _, _.
    split; [exact E|]. simpl.
    split; [by rewrite lookup_insert_eq|].
    assert ((heap st ++ fresh_channel name st)%list !! S (length (heap st))
            = Some (mkObject MockChannelInstance
                      (<["members" := VObject (Heap (length (heap st)))]>
                         (<["name" := VString name]> ∅)))) as Hl.
    { rewrite lookup_app_r by lia.
      replace (S (length (heap st)) - length (heap st)) with 1 by lia.
      reflexivity. }
    split; [exact Hl|]. split; [reflexivity|]. split; [exact Hok1|].
    intros _. split; [apply lookup_ge_None_2; lia|].
    unfold Get; simpl. rewrite Hl. unfold object_get; simpl.
    split; [reflexivity|].
    exists (length (heap st)). split; [reflexivity|].
    split; [lia|]. split; [by apply lookup_ge_None_2|].
    unfold fresh_channel. by rewrite list_lookup_middle.
Qed.

Lemma registry_returns_channel_witness :
  ∃ l o st1,
    DraftMembers.channel "lobby" room_realm = (VObject (Heap l), st1)
    ∧ channels st1 !! "lobby" = Some l
    ∧ heap st1 !! l = Some o
    ∧ cls o = MockChannelInstance
    ∧ registry_ok st1
    ∧ (channels room_realm !! "lobby" = None →
       heap room_realm !! l = None
       ∧ Get (Heap l) "name" st1 = VString "lobby"
       ∧ ∃ m, Get (Heap l) "members" st1 = VObject (Heap m)
              ∧ m ≠ l
              ∧ heap room_realm !! m = None
              ∧ heap st1 !! m = Some (mkObject PlainObject ∅)).
Proof.
  apply (registry_returns_channel "lobby" room_realm).
  - apply registry_ok_room_realm.
  - reflexivity.
Defined.

(** * Further properties of subscribing *)

Lemma subscribe_authorizes (c : DraftMembers.MockClient) (name : string)
    (id : value) (st : state) :
  DraftMembers.config c = DraftMembers.authorizes id →
  ∃ o st1,
    DraftMembers.channel name (DraftMembers.setID c id st) = (VObject o, st1)
    ∧ DraftMembers.subscribe c name st
      = Some (mkProxy o (DraftMembers.get (DraftMembers.this c)), st1).
Proof.
  intros Hc. apply subscribe_after. by rewrite Hc.
Qed.

(** X4. The first subscription to a name the registry neither stores nor
    inherits: the view reads [name] as the name subscribed to, and its
    [members] is a new object whose only entry is [myID], the subscriber's
    identity. *)
Theorem subscribe_fresh_channel (c : DraftMembers.MockClient) (name : string)
    (id : value) (st : state) :
  DraftMembers.config c = DraftMembers.authorizes id →
  channels st !! name = None → plain_name name →
  ∃ p st1 m st2 o,
    DraftMembers.subscribe c name st = Some (p, st1)
    ∧ Proxy_get p "name" st1 = (VString name, st1)
    ∧ Proxy_get p "members" st1 = (VObject (Heap m), st2)
    ∧ heap st1 !! m = None
    ∧ heap st2 !! m = Some o
    ∧ props o = <["myID" := id]> ∅.
Proof.
  intros Hc Hn Hplain.
  destruct (subscribe_authorizes c name id st Hc) as (o & st1 & E & S).
  rewrite (channel_creates name (DraftMembers.setID c id st) Hn Hplain) in E.
  injection E as <- <-. rewrite S. clear S.
  set (s0 := DraftMembers.setID c id st).
  set (st1 := mkState (heap s0 ++ fresh_channel name s0)
                      (<[name := S (length (heap s0))]> (channels s0))
                      (ids s0) (id_writes s0) (host_get s0)).
  set (t := Heap (S (length (heap s0)))).
  set (p := mkProxy t (DraftMembers.get (DraftMembers.this c))).
  assert (heap st1 !! S (length (heap s0))
          = Some (mkObject MockChannelInstance
                    (<["members" := VObject (Heap (length (heap s0)))]>
                       (<["name" := VString name]> ∅)))) as Hl.
  { unfold st1; simpl. rewrite lookup_app_r by lia.
    replace (S (length (heap st)) - length (heap st)) with 1 by lia.
    reflexivity. }
  assert (heap st1 !! length (heap s0) = Some (mkObject PlainObject ∅)) as Hm.
  { unfold st1, fresh_channel; simpl. by rewrite list_lookup_middle. }
  assert (Get t "name" st1 = VString name) as Gn.
  { unfold Get, t. by rewrite Hl. }
  assert (Get t "members" st1 = VObject (Heap (length (heap s0)))) as Gm.
  { unfold Get, t. by rewrite Hl. }
  exists p, st1, (length (heap st1)),
         (alloc (merged (DraftMembers.this c) t st1) st1).2,
         (merged (DraftMembers.this c) t st1).
  split; [reflexivity|].
  split.
  { unfold Proxy_get, p; simpl. unfold DraftMembers.get.
    rewrite decide_False by done. by rewrite Gn. }
  split; [reflexivity|].
  split; [by apply lookup_ge_None_2|].
  split; [simpl; by rewrite list_lookup_middle|].
  unfold merged. cbn [props]. rewrite Gm. unfold spread. rewrite Hm.
  cbn [props]. f_equal.
  unfold client_id, st1, s0; simpl. by rewrite lookup_insert_eq.
Qed.

Lemma subscribe_fresh_channel_witness :
  ∃ p st1 m st2 o,
    DraftMembers.subscribe
      (DraftMembers.mkMockClient 0 (DraftMembers.authorizes (VString "alice")))
      "lobby" room_realm = Some (p, st1)
    ∧ Proxy_get p "name" st1 = (VString "lobby", st1)
    ∧ Proxy_get p "members" st1 = (VObject (Heap m), st2)
    ∧ heap st1 !! m = None
    ∧ heap st2 !! m = Some o
    ∧ props o = <["myID" := VString "alice"]> ∅.
Proof.
  apply (subscribe_fresh_channel
           (DraftMembers.mkMockClient 0 (DraftMembers.authorizes (VString "alice")))
           "lobby" (VString "alice") room_realm); reflexivity.
Defined.

(** X5. Subscribing to a name that is stored constructs no Channel: the
    view's target is the stored Channel, the registry is as it was, every
    existing object is as it was, and every [MockChannel] of the heap was
    there before. *)
Theorem subscribe_existing (c : DraftMembers.MockClient) (name : string)
    (id : value) (st : state) (l : loc) :
  DraftMembers.config c = DraftMembers.authorizes id →
  channels st !! name = Some l →
  ∃ p st1,
    DraftMembers.subscribe c name st = Some (p, st1)
    ∧ target p = Heap l
    ∧ channels st1 = channels st
    ∧ (∀ l' o, heap st !! l' = Some o → heap st1 !! l' = Some o)
    ∧ (∀ l' o, heap st1 !! l' = Some o → cls o = MockChannelInstance →
         heap st !! l' = Some o).
Proof.
  intros Hc Hn.
  destruct (subscribe_authorizes c name id st Hc) as (o & st1 & E & S).
  rewrite (channel_stored name (DraftMembers.setID c id st) l Hn) in E.
  injection E as <- <-. rewrite S. eexists _, _.
  split; [reflexivity|]. by repeat split.
Qed.

Lemma subscribe_existing_witness :
  ∃ p st1,
    DraftMembers.subscribe
      (DraftMembers.mkMockClient 2 (DraftMembers.authorizes (VString "carol")))
      "room" room_realm = Some (p, st1)
    ∧ target p = Heap 1
    ∧ channels st1 = channels room_realm
    ∧ (∀ l' o, heap room_realm !! l' = Some o → heap st1 !! l' = Some o)
    ∧ (∀ l' o, heap st1 !! l' = Some o → cls o = MockChannelInstance →
         heap room_realm !! l' = Some o).
Proof.
  apply (subscribe_existing
           (DraftMembers.mkMockClient 2 (DraftMembers.authorizes (VString "carol")))
           "room" (VString "carol") room_realm 1); reflexivity.
Defined.

(** X6. With an authorizer that calls the callback once, [subscribe] of the
    client with [setID] assigns [this.id] exactly once, the identity the
    authorizer resolved, and leaves the identity of every other client as
    it was. *)
Theorem subscribe_assigns_once (c : DraftMembers.MockClient) (name : string)
    (id : value) (st : state) :
  DraftMembers.config c = DraftMembers.authorizes id →
  ∃ p st1,
    DraftMembers.subscribe c name st = Some (p, st1)
    ∧ id_writes st1 = (id_writes st ++ [(DraftMembers.this c, id)])%list
    ∧ client_id (DraftMembers.this c) st1 = id
    ∧ ∀ c', c' ≠ DraftMembers.this c → client_id c' st1 = client_id c' st.
Proof.
  intros Hc.
  destruct (subscribe_authorizes c name id st Hc) as (o & st1 & E & S).
  pose proof (channel_frame name (DraftMembers.setID c id st)) as (Hi & Hw & _).
  rewrite E in Hi, Hw. cbn [snd] in Hi, Hw.
  eexists _, st1. split; [exact S|]. split; [by rewrite Hw|].
  split.
  - rewrite (client_id_ids _ _ _ Hi). apply client_id_assign.
  - intros c' Hne. rewrite (client_id_ids _ _ _ Hi).
    unfold DraftMembers.setID. by apply client_id_assign_ne.
Qed.

Lemma subscribe_assigns_once_witness :
  ∃ p st1,
    DraftMembers.subscribe
      (DraftMembers.mkMockClient 0 (DraftMembers.authorizes (VString "al")))
      "room" room_realm = Some (p, st1)
    ∧ id_writes st1 = (id_writes room_realm ++ [(0, VString "al")])%list
    ∧ client_id 0 st1 = VString "al"
    ∧ ∀ c', c' ≠ 0 → client_id c' st1 = client_id c' room_realm.
Proof.
  apply (subscribe_assigns_once
           (DraftMembers.mkMockClient 0 (DraftMembers.authorizes (VString "al")))
           "room" (VString "al") room_realm).
  reflexivity.
Defined.

(** X7. [subscribe] of the client with [setID] throws exactly when the
    authorizer does: neither the registry nor the proxy can fail. *)
Theorem subscribe_fails_iff (c : DraftMembers.MockClient) (name : string)
    (st : state) :
  DraftMembers.subscribe c name st = None
  ↔ DraftMembers.authorize (DraftMembers.config c) (DraftMembers.setID c) st
    = None.
Proof.
  destruct (DraftMembers.authorize (DraftMembers.config c)
              (DraftMembers.setID c) st) as [st1|] eqn:Ha.
  - destruct (subscribe_after c name st st1 Ha) as (o & st2 & _ & S).
    rewrite S. split; discriminate.
  - unfold DraftMembers.subscribe. rewrite Ha. split; reflexivity.
Qed.

(** [subscribe] of [mock-client.js], with its callback named. *)
Lemma DraftMyID_subscribe_unfold (c : DraftMyID.MockClient) (name : string)
    (st : state) :
  DraftMyID.subscribe c name st =
  '(v, st1) ← DraftMyID.authorizer (DraftMyID.config c) (subscribe_callback c) st;
  DraftMyID.channel name (DraftMyID.this c) (assign_id (DraftMyID.this c) v st1).
Proof. reflexivity. Qed.

(** [channel] of the draft that wraps never fails. *)
Lemma DraftMyID_channel_total (name : string) (client : nat) (st : state) :
  ∃ o st1,
    DraftMembers.channel name st = (VObject o, st1)
    ∧ DraftMyID.channel name client st
      = Some (mkProxy o (DraftMyID.get client), st1).
Proof.
  rewrite DraftMyID_channel_unfold.
  destruct (DraftMembers.channel name st) as [ch st1] eqn:E.
  destruct (channel_returns _ _ _ _ E) as [Ho _].
  destruct ch as [| | |o]; try discriminate. by exists o, st1.
Qed.

(** X8. [subscribe] of [mock-client.js]: whatever the authorizer does with
    the callback, the identity the client ends with is the value the
    authorizer returned. That value is the last assignment to [this.id] and
    what the view reads under [myID]. *)
Theorem subscribe_keeps_return_value (c : DraftMyID.MockClient)
    (name : string) (st st1 : state) (v : value) :
  DraftMyID.authorizer (DraftMyID.config c) (subscribe_callback c) st
    = Some (v, st1) →
  ∃ p st2,
    DraftMyID.subscribe c name st = Some (p, st2)
    ∧ client_id (DraftMyID.this c) st2 = v
    ∧ id_writes st2 = (id_writes st1 ++ [(DraftMyID.this c, v)])%list
    ∧ Proxy_get p "myID" st2 = (v, st2).
Proof.
  intros Ha. rewrite DraftMyID_subscribe_unfold, Ha. cbn [mbind option_bind].
  set (s := assign_id (DraftMyID.this c) v st1).
  destruct (DraftMyID_channel_total name (DraftMyID.this c) s)
    as (o & st2 & E & ->).
  pose proof (channel_frame name s) as (Hi & Hw & _).
  rewrite E in Hi, Hw. cbn [snd] in Hi, Hw.
  assert (client_id (DraftMyID.this c) st2 = v) as Hid.
  { rewrite (client_id_ids _ _ _ Hi). apply client_id_assign. }
  exists (mkProxy o (DraftMyID.get (DraftMyID.this c))), st2.
  split; [reflexivity|]. split; [exact Hid|]. split; [by rewrite Hw|].
  unfold Proxy_get; simpl. unfold DraftMyID.get. simpl. by rewrite Hid.
Qed.

Lemma subscribe_keeps_return_value_witness :
  ∃ p st2,
    DraftMyID.subscribe (DraftMyID.createClient (VString "my-id") 0) "room"
                        room_realm = Some (p, st2)
    ∧ client_id 0 st2 = VUndefined
    ∧ id_writes st2
      = (id_writes
           (assign_id 0 (VString "my-id")
              (alloc (mkObject PlainObject (<["id" := VString "my-id"]> ∅))
                     room_realm).2)
         ++ [(0, VUndefined)])%list
    ∧ Proxy_get p "myID" st2 = (VUndefined, st2).
Proof.
  apply (subscribe_keeps_return_value
           (DraftMyID.createClient (VString "my-id") 0) "room" room_realm
           (assign_id 0 (VString "my-id")
              (alloc (mkObject PlainObject (<["id" := VString "my-id"]> ∅))
                     room_realm).2)
           VUndefined).
  reflexivity.
Defined.

(** X9. A client made by [createClient], for any identity, name and realm:
    [subscribe] assigns [this.id] the identity and then [undefined], so the
    client ends without an identity and its view reads [myID] as
    [undefined]. *)
Theorem createClient_loses_id (id : value) (this : nat) (name : string)
    (st : state) :
  ∃ p st1,
    DraftMyID.subscribe (DraftMyID.createClient id this) name st
      = Some (p, st1)
    ∧ id_writes st1 = (id_writes st ++ [(this, id); (this, VUndefined)])%list
    ∧ client_id this st1 = VUndefined
    ∧ Proxy_get p "myID" st1 = (VUndefined, st1).
Proof.
  set (c := DraftMyID.createClient id this).
  set (r := alloc (mkObject PlainObject (<["id" := id]> ∅)) st).
  assert (DraftMyID.authorizer (DraftMyID.config c) (subscribe_callback c) st
          = Some (VUndefined, assign_id this id r.2)) as Ha.
  { unfold c, DraftMyID.createClient, subscribe_callback; simpl.
    unfold Get; simpl. rewrite list_lookup_middle by done.
    unfold object_get; simpl. by rewrite lookup_insert_eq. }
  rewrite DraftMyID_subscribe_unfold, Ha. cbn [mbind option_bind].
  set (s := assign_id (DraftMyID.this c) VUndefined (assign_id this id r.2)).
  destruct (DraftMyID_channel_total name (DraftMyID.this c) s)
    as (o & st2 & E & ->).
  pose proof (channel_frame name s) as (Hi & Hw & _).
  rewrite E in Hi, Hw. cbn [snd] in Hi, Hw.
  assert (client_id this st2 = VUndefined) as Hid.
  { rewrite (client_id_ids _ _ _ Hi). apply client_id_assign. }
  exists (mkProxy o (DraftMyID.get this)), st2.
  split; [reflexivity|].
  split; [rewrite Hw; unfold s; simpl; by rewrite <- app_assoc|].
  split; [exact Hid|].
  unfold Proxy_get; simpl. unfold DraftMyID.get. simpl. by rewrite Hid.
Qed.

(** X10. [subscribe] of [mock-client.js] throws exactly when the authorizer
    does, and the callback it hands over throws exactly when it is called
    with [undefined] or [null], whose [id] cannot be read; with any other
    result it returns [undefined]. *)
Theorem subscribe_throws_iff (c : DraftMyID.MockClient) (name : string)
    (st : state) :
  (DraftMyID.subscribe c name st = None
   ↔ DraftMyID.authorizer (DraftMyID.config c) (subscribe_callback c) st = None)
  ∧ (∀ result s, subscribe_callback c result s = None
                 ↔ result = VUndefined ∨ result = VNull)
  ∧ (∀ result s v s', subscribe_callback c result s = Some (v, s') →
       v = VUndefined).
Proof.
  split; [|split].
  - rewrite DraftMyID_subscribe_unfold.
    destruct (DraftMyID.authorizer (DraftMyID.config c) (subscribe_callback c) st)
      as [[v st1]|] eqn:Ha; cbn [mbind option_bind]; [|done].
    destruct (DraftMyID_channel_total name (DraftMyID.this c)
                (assign_id (DraftMyID.this c) v st1)) as (o & st2 & _ & ->).
    split; discriminate.
  - intros result s. unfold subscribe_callback.
    destruct result; simpl; split; try discriminate; auto.
    + by intros [?|?].
    + by intros [?|?].
  - intros result s v s'. unfold subscribe_callback.
    destruct (GetV result "id" s); simpl; [|discriminate].
    by intros [= <- _].
Qed.

(** * Further properties of the overlay *)

Lemma Set_Get_other (l : loc) (key : string) (v : value) (st st' : state)
    (o : objref) (key' : string) :
  Set_ (Heap l) key v st = Some st' → o ≠ Heap l →
  Get o key' st' = Get o key' st.
Proof.
  intros HS Hne. apply Set_other in HS as (Hh & _ & _ & Ho).
  destruct o as [l'|b]; unfold Get.
  - rewrite Ho; [done|]. congruence.
  - by rewrite Hh.
Qed.

(** X11. A read through a view never writes: whatever the key, the
    registry, every client's identity and every existing object are after
    the read what they were before. A read through the view that traps
    [myID], and a read of any key but [members] through the other, leaves
    the realm exactly as it was. *)
Theorem overlay_reads_keep (p : Proxy) (trapped key : string) (st : state) :
  overlay_of p trapped →
  extends st (Proxy_get p key st).2
  ∧ channels (Proxy_get p key st).2 = channels st
  ∧ ids (Proxy_get p key st).2 = ids st
  ∧ id_writes (Proxy_get p key st).2 = id_writes st
  ∧ (trapped = "myID" ∨ key ≠ "members" → (Proxy_get p key st).2 = st).
Proof.
  intros Hp. unfold Proxy_get.
  destruct Hp as [channel client Hp | channel client Hp];
    apply new_Proxy_Some in Hp as [_ ->].
  - unfold DraftMyID.get. case_decide; simpl; auto 6 using extends_refl.
  - unfold DraftMembers.get. case_decide as Hk; simpl.
    + repeat split; try done.
      * intros l o H. by apply lookup_app_l_Some.
      * intros [?|?]; [discriminate | done].
    + auto 6 using extends_refl.
Qed.

Lemma overlay_reads_keep_witness :
  extends room_realm
    (Proxy_get (mkProxy (Heap 1) (DraftMembers.get 0)) "members" room_realm).2
  ∧ channels
      (Proxy_get (mkProxy (Heap 1) (DraftMembers.get 0)) "members" room_realm).2
    = channels room_realm
  ∧ ids (Proxy_get (mkProxy (Heap 1) (DraftMembers.get 0)) "members" room_realm).2
    = ids room_realm
  ∧ id_writes
      (Proxy_get (mkProxy (Heap 1) (DraftMembers.get 0)) "members" room_realm).2
    = id_writes room_realm
  ∧ ("members" = "myID" ∨ "members" ≠ "members" →
     (Proxy_get (mkProxy (Heap 1) (DraftMembers.get 0)) "members" room_realm).2
     = room_realm).
Proof.
  apply (overlay_reads_keep (mkProxy (Heap 1) (DraftMembers.get 0)) "members"
           "members" room_realm).
  apply (overlay_members _ (VObject (Heap 1)) 0). reflexivity.
Defined.

(** X12. The view that traps [myID] hands out the channel's own [members]
    object: an entry written to the mapping one view returned is read
    through every other view of the channel, which returns the same
    object. *)
Theorem members_shared_by_reference (channel : value) (a b : nat)
    (pA pB : Proxy) (st : state) (m : loc) (k : string) (v : value) :
  DraftMyID.proxyMockChannel channel a = Some pA →
  DraftMyID.proxyMockChannel channel b = Some pB →
  Get (target pA) "members" st = VObject (Heap m) →
  m < length (heap st) → target pA ≠ Heap m → k ≠ "__proto__" →
  Proxy_get pA "members" st = (VObject (Heap m), st)
  ∧ ∃ st',
      Set_ (Heap m) k v st = Some st'
      ∧ Proxy_get pB "members" st' = (VObject (Heap m), st')
      ∧ Get (Heap m) k st' = v.
Proof.
  intros HA HB Hm Hl Hne Hk.
  apply new_Proxy_Some in HA as [HcA HgA].
  apply new_Proxy_Some in HB as [HcB HgB].
  assert (target pB = target pA) as Ht by congruence.
  split.
  { unfold Proxy_get. rewrite HgA. unfold DraftMyID.get.
    rewrite decide_False by done. by rewrite Hm. }
  destruct (Set_Get m k v st Hk Hl) as (st' & HS & HG & _).
  exists st'. split; [exact HS|]. split; [|exact HG].
  unfold Proxy_get. rewrite HgB, Ht. unfold DraftMyID.get.
  rewrite decide_False by done.
  by rewrite (Set_Get_other m k v st st' (target pA) "members" HS Hne), Hm.
Qed.

Lemma members_shared_by_reference_witness :
  Proxy_get (mkProxy (Heap 1) (DraftMyID.get 0)) "members" room_realm
    = (VObject (Heap 0), room_realm)
  ∧ ∃ st',
      Set_ (Heap 0) "carol" (VString "here") room_realm = Some st'
      ∧ Proxy_get (mkProxy (Heap 1) (DraftMyID.get 1)) "members" st'
        = (VObject (Heap 0), st')
      ∧ Get (Heap 0) "carol" st' = VString "here".
Proof.
  apply (members_shared_by_reference (VObject (Heap 1)) 0 1
           (mkProxy (Heap 1) (DraftMyID.get 0))
           (mkProxy (Heap 1) (DraftMyID.get 1)) room_realm 0 "carol"
           (VString "here")).
  - reflexivity.
  - reflexivity.
  - reflexivity.
  - vm_compute. lia.
  - discriminate.
  - discriminate.
Defined.

(** X13. The view that traps [members] shows the shared base: an entry
    written into the channel's own [members] object under any key but
    [myID] appears in the mapping every view of the channel reads
    afterwards, beside the reader's own [myID]. *)
Theorem base_entry_seen_by_views (channel : value) (client : nat) (p : Proxy)
    (st : state) (mm : loc) (k : string) (v : value) :
  DraftMembers.proxyMockChannel channel client = Some p →
  Get (target p) "members" st = VObject (Heap mm) →
  mm < length (heap st) → target p ≠ Heap mm →
  k ≠ "__proto__" → k ≠ "myID" →
  ∃ st' m st'',
    Set_ (Heap mm) k v st = Some st'
    ∧ Proxy_get p "members" st' = (VObject (Heap m), st'')
    ∧ own_prop m k st'' = Some v
    ∧ own_prop m "myID" st'' = Some (client_id client st).
Proof.
  intros Hp Hm Hl Hne Hk Hk'.
  apply new_Proxy_Some in Hp as [_ Hg].
  destruct (Set_Get mm k v st Hk Hl) as (st' & HS & HG & _ & Hi).
  exists st', (length (heap st')), (alloc (merged client (target p) st') st').2.
  split; [exact HS|].
  split; [unfold Proxy_get; by rewrite Hg|].
  rewrite !own_prop_merged.
  rewrite (Set_Get_other mm k v st st' (target p) "members" HS Hne), Hm.
  split.
  - rewrite lookup_insert_ne by done. unfold spread.
    unfold Set_ in HS. rewrite decide_False in HS by done.
    destruct (lookup_lt_is_Some_2 (heap st) mm Hl) as [o Ho].
    rewrite Ho in HS. injection HS as <-. simpl.
    rewrite list_lookup_insert_eq by done. simpl. by rewrite lookup_insert_eq.
  - rewrite lookup_insert_eq. by rewrite (client_id_ids client st st' Hi).
Qed.

Lemma base_entry_seen_by_views_witness :
  ∃ st' m st'',
    Set_ (Heap 0) "carol" (VString "here") room_realm = Some st'
    ∧ Proxy_get (mkProxy (Heap 1) (DraftMembers.get 1)) "members" st'
      = (VObject (Heap m), st'')
    ∧ own_prop m "carol" st'' = Some (VString "here")
    ∧ own_prop m "myID" st'' = Some (client_id 1 room_realm).
Proof.
  apply (base_entry_seen_by_views (VObject (Heap 1)) 1
           (mkProxy (Heap 1) (DraftMembers.get 1)) room_realm 0 "carol"
           (VString "here")).
  - reflexivity.
  - reflexivity.
  - vm_compute. lia.
  - discriminate.
  - discriminate.
  - discriminate.
Defined.

(** X14. Channels are kept apart: a write through a view of the Channel
    stored under one name changes no property of the Channel stored under
    another name, and does not touch the registry. *)
Theorem write_stays_in_channel (n1 n2 : string) (l1 l2 : loc) (pA : Proxy)
    (key : string) (v : value) (st st' : state) :
  registry_ok st → n1 ≠ n2 →
  channels st !! n1 = Some l1 → channels st !! n2 = Some l2 →
  target pA = Heap l1 →
  Proxy_set pA key v st = Some st' →
  (∀ key', Get (Heap l2) key' st' = Get (Heap l2) key' st)
  ∧ channels st' = channels st
  ∧ registry_ok st'.
Proof.
  intros [Hobj Hinj] Hne H1 H2 Ht HS. unfold Proxy_set in HS. rewrite Ht in HS.
  assert (l2 ≠ l1) as Hl by (intros ->; apply Hne; by eapply Hinj).
  split.
  { intros key'. eapply Set_Get_other; [exact HS | congruence]. }
  unfold Set_ in HS. case_decide; [discriminate|].
  destruct (heap st !! l1) as [o1|] eqn:E1; [|discriminate].
  injection HS as <-. simpl. split; [reflexivity|].
  split; simpl; [|exact Hinj].
  intros n l Hn. destruct (Hobj n l Hn) as (o & Ho & Hc).
  destruct (decide (l = l1)) as [->|Hll].
  - exists (mkObject (cls o1) (<[key := v]> (props o1))).
    split; [apply list_lookup_insert_eq; by eapply lookup_lt_Some|].
    simpl. congruence.
  - exists o. split; [by rewrite list_lookup_insert_ne | done].
Qed.

Lemma registry_ok_two_rooms : registry_ok two_rooms.
Proof.
  destruct (DraftMembers.channel "lobby" room_realm) as [c st1] eqn:E.
  destruct (channel_registry _ _ _ _ registry_ok_room_realm E) as [H _].
  unfold two_rooms. by rewrite E.
Qed.

Lemma write_stays_in_channel_witness :
  ∃ st',
    Proxy_set (mkProxy (Heap 1) (DraftMembers.get 0)) "topic" (VString "tea")
              two_rooms = Some st'
    ∧ (∀ key', Get (Heap 3) key' st' = Get (Heap 3) key' two_rooms)
    ∧ channels st' = channels two_rooms
    ∧ registry_ok st'.
Proof.
  eexists. split; [reflexivity|].
  apply (write_stays_in_channel "room" "lobby" 1 3
           (mkProxy (Heap 1) (DraftMembers.get 0)) "topic" (VString "tea")
           two_rooms).
  - apply registry_ok_two_rooms.
  - discriminate.
  - reflexivity.
  - reflexivity.
  - reflexivity.
  - reflexivity.
Defined.

(** * Invariants along subscriptions, and the two drafts side by side *)

(** X15. Subscribing keeps the realm in order: from a well-formed realm
    whose registry holds allocated Channels, one per name, a subscription
    returns a view of an existing object and leaves a realm of the same
    kind. *)
Theorem subscribe_keeps_invariants (c : DraftMembers.MockClient)
    (name : string) (id : value) (st : state) :
  wf st → registry_ok st →
  DraftMembers.config c = DraftMembers.authorizes id →
  ∃ p st1,
    DraftMembers.subscribe c name st = Some (p, st1)
    ∧ wf st1 ∧ registry_ok st1 ∧ allocated st1 (target p).
Proof.
  intros Hwf Hok Hc.
  destruct (subscribe_authorizes c name id st Hc) as (o & st1 & E & S).
  pose proof (wf_channel name (DraftMembers.setID c id st)
                (wf_assign_id (DraftMembers.this c) id st Hwf)) as Hwf1.
  rewrite E in Hwf1. cbn [snd] in Hwf1.
  assert (registry_ok (DraftMembers.setID c id st)) as Hok0 by exact Hok.
  destruct (channel_registry _ _ _ _ Hok0 E) as (Hok1 & _ & _ & _).
  destruct (channel_returns _ _ _ _ E) as [_ Hg].
  eexists _, st1. split; [exact S|]. split; [exact Hwf1|].
  split; [exact Hok1|]. simpl. by eapply channels_get_allocated.
Qed.

Lemma subscribe_keeps_invariants_witness :
  ∃ p st1,
    DraftMembers.subscribe
      (DraftMembers.mkMockClient 0 (DraftMembers.authorizes (VString "alice")))
      "lobby" room_realm = Some (p, st1)
    ∧ wf st1 ∧ registry_ok st1 ∧ allocated st1 (target p).
Proof.
  apply (subscribe_keeps_invariants
           (DraftMembers.mkMockClient 0 (DraftMembers.authorizes (VString "alice")))
           "lobby" (VString "alice") room_realm).
  - apply wf_room_realm.
  - apply registry_ok_room_realm.
  - reflexivity.
Defined.

(** What a Channel just made by the registry reads. *)
Lemma fresh_channel_reads (name : string) (st : state) :
  channels st !! name = None → plain_name name →
  ∃ st1,
    DraftMembers.channel name st = (VObject (Heap (S (length (heap st)))), st1)
    ∧ Get (Heap (S (length (heap st)))) "members" st1
      = VObject (Heap (length (heap st)))
    ∧ Get (Heap (S (length (heap st)))) "myID" st1 = VUndefined
    ∧ heap st1 !! length (heap st) = Some (mkObject PlainObject ∅)
    ∧ ids st1 = ids st.
Proof.
  intros Hn Hplain. eexists. split; [by apply channel_creates|].
  assert ((heap st ++ fresh_channel name st)%list !! S (length (heap st))
          = Some (mkObject MockChannelInstance
                    (<["members" := VObject (Heap (length (heap st)))]>
                       (<["name" := VString name]> ∅)))) as Hl.
  { rewrite lookup_app_r by lia.
    replace (S (length (heap st)) - length (heap st)) with 1 by lia.
    reflexivity. }
  unfold Get; cbn [heap]. rewrite Hl.
  repeat split; try reflexivity.
  unfold fresh_channel. by rewrite list_lookup_middle.
Qed.

(** X16. The view that traps [members] does not answer a bare [myID]: on a
    Channel the subscription has just made it reads [undefined], whatever
    identity the authorizer resolved. *)
Theorem members_draft_bare_myID (c : DraftMembers.MockClient) (name : string)
    (id : value) (st : state) :
  DraftMembers.config c = DraftMembers.authorizes id →
  channels st !! name = None → plain_name name →
  ∃ p st1,
    DraftMembers.subscribe c name st = Some (p, st1)
    ∧ client_id (DraftMembers.this c) st1 = id
    ∧ Proxy_get p "myID" st1 = (VUndefined, st1).
Proof.
  intros Hc Hn Hplain.
  destruct (subscribe_authorizes c name id st Hc) as (o & st1 & E & S).
  destruct (fresh_channel_reads name (DraftMembers.setID c id st) Hn Hplain)
    as (st1' & E' & _ & Hid & _ & Hi).
  rewrite E in E'. injection E' as -> <-.
  eexists _, st1. split; [exact S|].
  split; [rewrite (client_id_ids _ _ _ Hi); apply client_id_assign|].
  unfold Proxy_get; cbn [handler_get target]. unfold DraftMembers.get.
  rewrite decide_False by done. f_equal. exact Hid.
Qed.

Lemma members_draft_bare_myID_witness :
  ∃ p st1,
    DraftMembers.subscribe
      (DraftMembers.mkMockClient 0 (DraftMembers.authorizes (VString "my-id")))
      "my-channel" (initial bare_host) = Some (p, st1)
    ∧ client_id 0 st1 = VString "my-id"
    ∧ Proxy_get p "myID" st1 = (VUndefined, st1).
Proof.
  apply (members_draft_bare_myID
           (DraftMembers.mkMockClient 0 (DraftMembers.authorizes (VString "my-id")))
           "my-channel" (VString "my-id") (initial bare_host)); reflexivity.
Defined.

(** X17. The view that traps [myID] does not merge: its [members] is the
    Channel's own mapping, which on a Channel just made is empty, so that
    [members.myID] reads [undefined]. *)
Theorem myID_draft_members (name : string) (client : nat) (st : state) :
  channels st !! name = None → plain_name name →
  ∃ p st1 m,
    DraftMyID.channel name client st = Some (p, st1)
    ∧ Proxy_get p "members" st1 = (VObject (Heap m), st1)
    ∧ heap st1 !! m = Some (mkObject PlainObject ∅)
    ∧ Get (Heap m) "myID" st1 = VUndefined.
Proof.
  intros Hn Hplain.
  destruct (fresh_channel_reads name st Hn Hplain)
    as (st1 & E & Hm & _ & Hl & _).
  destruct (DraftMyID_channel_total name client st) as (o & st1' & E' & ->).
  rewrite E in E'. injection E' as <- <-.
  eexists _, st1, (length (heap st)). split; [reflexivity|].
  split.
  { unfold Proxy_get; cbn [handler_get target]. unfold DraftMyID.get.
    rewrite decide_False by done. by rewrite Hm. }
  split; [exact Hl|].
  unfold Get. by rewrite Hl.
Qed.

Lemma myID_draft_members_witness :
  ∃ p st1 m,
    DraftMyID.channel "my-channel" 0 (initial bare_host) = Some (p, st1)
    ∧ Proxy_get p "members" st1 = (VObject (Heap m), st1)
    ∧ heap st1 !! m = Some (mkObject PlainObject ∅)
    ∧ Get (Heap m) "myID" st1 = VUndefined.
Proof.
  apply (myID_draft_members "my-channel" 0 (initial bare_host)); reflexivity.
Defined.

Lemma inherited_object_or_undefined (c : class) (key : string) :
  inherited c key = VUndefined ∨ is_object (inherited c key) = true.
Proof. unfold inherited. repeat case_decide; auto. Qed.

Lemma channel_inherited_step (n name : string) (st : state) :
  ¬ plain_name n → channels st !! n = None →
  channels (DraftMembers.channel name st).2 !! n = None.
Proof.
  intros Hp Hn. unfold DraftMembers.channel.
  destruct (truthy (channels_get name st)) eqn:Ht; cbn [negb snd]; [done|].
  rewrite new_MockChannel_eq. simpl.
  rewrite lookup_insert_ne; [done|]. intros ->.
  unfold channels_get in Ht. rewrite Hn in Ht.
  rewrite inherited_truthy in Ht.
  destruct (inherited_object_or_undefined PlainObject n) as [H|H];
    [by apply Hp | congruence].
Qed.

(** X18. No Channel is ever stored under a name the registry object
    inherits ([__proto__] or a method of [Object.prototype]): after any run
    of lookups such a name is still not stored, and a lookup of it returns
    the inherited built-in, not a Channel, leaving the realm as it is. *)
Theorem inherited_name_never_stored (n : string) (names : list string)
    (st : state) :
  ¬ plain_name n → channels st !! n = None →
  channels (lookups names st) !! n = None
  ∧ ∃ b, DraftMembers.channel n (lookups names st)
         = (VObject (Builtin b), lookups names st).
Proof.
  intros Hp Hn.
  assert (channels (lookups names st) !! n = None) as Hl.
  { revert st Hn. induction names as [|name names IH]; intros st Hn; [done|].
    change (lookups (name :: names) st)
      with (lookups names (DraftMembers.channel name st).2).
    apply IH. by apply channel_inherited_step. }
  split; [exact Hl|].
  assert (channels_get n (lookups names st) = inherited PlainObject n) as Hg.
  { unfold channels_get. by rewrite Hl. }
  destruct (inherited_object_or_undefined PlainObject n) as [H|H];
    [by destruct Hp|].
  destruct (inherited PlainObject n) as [| | |[l|b]] eqn:E; try discriminate.
  - by apply inherited_not_heap in E.
  - exists b. apply channel_again; [reflexivity | exact Hg].
Qed.

Lemma inherited_name_never_stored_witness :
  channels (lookups ["room"; "constructor"; "lobby"] (initial bare_host))
    !! "constructor" = None
  ∧ ∃ b, DraftMembers.channel "constructor"
           (lookups ["room"; "constructor"; "lobby"] (initial bare_host))
         = (VObject (Builtin b),
            lookups ["room"; "constructor"; "lobby"] (initial bare_host)).
Proof.
  apply (inherited_name_never_stored "constructor"
           ["room"; "constructor"; "lobby"] (initial bare_host)).
  - discriminate.
  - reflexivity.
Defined.
